(** * brightray: browser/linux/libnotify_notification.cc

    A shallow embedding of the libnotify notification back end and the
    properties of its binding, capability negotiation and per-notification
    life cycle.

    Conventions.  A std::string is a Rocq string, which may hold NUL
    characters; [c_str] gives what a C function reads from it.  The strings
    the service returns are C strings.  Calls into libnotify, GLib and the
    dynamic loader are modelled by their documented contract; what the
    outside world answers (environment, loader, service) is read from a
    [World] record, and every native call and delegate signal is recorded in
    an event log, so that "which calls were made" is a statement about a list. *)

From Stdlib Require Import String Ascii List ZArith NArith Bool Arith Lia.
Import ListNotations.
Local Open Scope string_scope.

(** ** Data *)

(** GError, as filled in by a failing native call. *)
Record GError := mkGError {
  domain : N;
  code : Z;
  message : string
}.

(** SkBitmap, reduced to what [drawsNothing] reads. *)
Record SkBitmap := mkSkBitmap {
  bm_width : Z;
  bm_height : Z;
  bm_has_pixels : bool
}.

Definition drawsNothing (bm : SkBitmap) : bool :=
  (bm_width bm <=? 0)%Z || (bm_height bm <=? 0)%Z || negb (bm_has_pixels bm).

(** GdkPixbuf: an opaque image produced by the presentation helper. *)
Record GdkPixbuf := mkGdkPixbuf {
  pb_width : Z;
  pb_height : Z
}.

(** The four one-shot signals of NotificationDelegate. *)
Inductive DelegateSignal :=
| SigDisplayed
| SigFailed
| SigDismissed
| SigClicked.

Definition DelegateSignal_eqb (a b : DelegateSignal) : bool :=
  match a, b with
  | SigDisplayed, SigDisplayed => true
  | SigFailed, SigFailed => true
  | SigDismissed, SigDismissed => true
  | SigClicked, SigClicked => true
  | _, _ => false
  end.

(** Observable events: native calls, log lines and delegate signals, in the
    order the code performs them. *)
Inductive event :=
| EvLoad (library_name : string) (bound : bool)
| EvNotifyIsInitted (initted : bool)
| EvNotifyInit (app_name : string) (ok : bool)
| EvNotifyGetServerCaps (round_trip : nat)
| EvGListFreeFull (elements : nat)
| EvNotifyNotificationNew (summary body : string)
| EvGSignalConnect (detailed_signal : string) (data : nat)
| EvNotifyNotificationAddAction (action label : string) (data : nat)
| EvSetImageFromPixbuf (pixbuf : GdkPixbuf)
| EvSetTimeout (timeout : Z)
| EvUnrefPixbuf
| EvGQuarkFromString (s : string) (quark : N)
| EvGObjectSetId (id : N)
| EvSetHintString (key value : string)
| EvNotifyNotificationShow (failed : bool)
| EvNotifyNotificationClose (failed : bool)
| EvLogError (context : string) (error : GError)
| EvGErrorFree
| EvGSignalHandlersDisconnectByData (data : nat)
| EvGObjectUnref
| EvGLibCritical (function : string)
| EvDelegate (this : nat) (signal : DelegateSignal)
| EvDestroy (this : nat).

(** The native NotifyNotification object behind [notification_]. *)
Record NotifyNotification := mkNotifyNotification {
  nn_summary : string;
  nn_body : string;
  nn_closed_handlers : list nat;
  nn_actions : list (string * string * nat);
  nn_image : option GdkPixbuf;
  nn_timeout : option Z;
  nn_id : N;
  nn_hints : list (string * string)
}.

(** Process-wide state: the function-local statics of
    [NotifierSupportsActions], GLib's quark table and the number of
    capability round trips made to the service so far. *)
Record Process := mkProcess {
  notify_has_result : bool;
  notify_result : bool;
  quark_table : list string;
  round_trips : nat
}.

Definition initial_process : Process :=
  {| notify_has_result := false;
     notify_result := false;
     quark_table := [];
     round_trips := 0 |}.

(** What the outside world answers during one operation. *)
Record World := mkWorld {
  getenv : string -> option string;
  Load : string -> bool;
  notify_is_initted : bool;
  notify_init : string -> bool;
  GetApplicationName : string;
  server_caps : nat -> list string;
  UTF16ToUTF8 : list N -> string;
  GdkPixbufFromSkBitmap : SkBitmap -> GdkPixbuf;
  show_error : option GError;
  close_error : option GError
}.

(** ** A state monad with an event log *)

Record Out (S A : Type) := mkOut {
  value : A;
  state : S;
  emitted : list event
}.
Arguments mkOut {S A} _ _ _.
Arguments value {S A} _.
Arguments state {S A} _.
Arguments emitted {S A} _.

Definition M (S A : Type) : Type := S -> Out S A.

Definition ret {S A} (a : A) : M S A :=
  fun s => mkOut a s [].

Definition bind {S A B} (m : M S A) (k : A -> M S B) : M S B :=
  fun s =>
    match m s with
    | mkOut a s' log =>
        match k a s' with
        | mkOut b s'' log' => mkOut b s'' (log ++ log')
        end
    end.

Declare Scope m_scope.
Delimit Scope m_scope with m.
Notation "x <- c ;; k" := (bind c (fun x => k))
  (at level 61, c at next level, right associativity) : m_scope.
Notation "c ;; k" := (bind c (fun _ => k))
  (at level 61, right associativity) : m_scope.
Local Open Scope m_scope.

Definition emit {S} (e : event) : M S unit :=
  fun s => mkOut tt s [e].

Definition get {S} : M S S :=
  fun s => mkOut s s [].

Definition modify {S} (f : S -> S) : M S unit :=
  fun s => mkOut tt (f s) [].

Definition when {S} (b : bool) (m : M S unit) : M S unit :=
  if b then m else ret tt.

(** ** C strings and GLib *)

(** std::string::c_str() as a C function reads it: the characters before the
    first NUL. *)
Fixpoint c_str (s : string) : string :=
  match s with
  | EmptyString => EmptyString
  | String c rest =>
      if Ascii.eqb c Ascii.zero then EmptyString
      else String c (c_str rest)
  end.

Definition strcmp (a b : string) : Z :=
  match String.compare a b with
  | Eq => 0
  | Lt => -1
  | Gt => 1
  end.

(** g_strcmp0: strcmp that accepts NULL, which sorts before any string. *)
Definition g_strcmp0 (str1 str2 : option string) : Z :=
  match str1, str2 with
  | None, None => 0
  | None, Some _ => -1
  | Some _, None => 1
  | Some a, Some b => strcmp a b
  end.

(** g_list_find_custom: the first node whose data compares equal (0) to
    [data], as the remaining list from that node on; NULL when there is none. *)
Fixpoint g_list_find_custom {A B} (l : list A) (data : B) (func : A -> B -> Z)
  : option (list A) :=
  match l with
  | [] => None
  | x :: rest =>
      if (func x data =? 0)%Z then Some l
      else g_list_find_custom rest data func
  end.

Definition g_list_free_full {S A} (l : list A) : M S unit :=
  emit (EvGListFreeFull (length l)).

(** ** Capability negotiation *)

Definition set_round_trips (n : nat) (p : Process) : Process :=
  {| notify_has_result := notify_has_result p;
     notify_result := notify_result p;
     quark_table := quark_table p;
     round_trips := n |}.

Definition set_notify_result (b : bool) (p : Process) : Process :=
  {| notify_has_result := notify_has_result p;
     notify_result := b;
     quark_table := quark_table p;
     round_trips := round_trips p |}.

Definition set_quark_table (t : list string) (p : Process) : Process :=
  {| notify_has_result := notify_has_result p;
     notify_result := notify_result p;
     quark_table := t;
     round_trips := round_trips p |}.

(** notify_get_server_caps: one round trip to the service; the reply is a
    freshly allocated GList of freshly allocated strings. *)
Definition notify_get_server_caps (w : World) : M Process (list (option string)) :=
  p <- get ;;
  let n := round_trips p in
  emit (EvNotifyGetServerCaps n) ;;
  modify (set_round_trips (S n)) ;;
  ret (map Some (server_caps w n)).

Definition HasCapability (w : World) (capability : string) : M Process bool :=
  let result := false in
  capabilities <- notify_get_server_caps w ;;
  let result :=
    match g_list_find_custom capabilities (Some (c_str capability)) g_strcmp0 with
    | Some _ => true
    | None => result
    end in
  g_list_free_full capabilities ;;
  ret result.

Definition ELECTRON_USE_UBUNTU_NOTIFIER : string := "ELECTRON_USE_UBUNTU_NOTIFIER".

Definition NotifierSupportsActions (w : World) : M Process bool :=
  match getenv w ELECTRON_USE_UBUNTU_NOTIFIER with
  | Some _ => ret false
  | None =>
      p <- get ;;
      if notify_has_result p then ret (notify_result p)
      else
        r <- HasCapability w "actions" ;;
        modify (set_notify_result r) ;;
        ret r
  end.

(** g_quark_from_string: GLib interns a string in a process-wide table and
    hands out quarks sequentially from 1; a string already in the table keeps
    the quark it was given (0 is reserved for NULL). *)
Fixpoint quark_index (s : string) (table : list string) : option nat :=
  match table with
  | [] => None
  | x :: rest =>
      if String.eqb x s then Some 0
      else option_map S (quark_index s rest)
  end.

Definition g_quark_from_string (s : string) : M Process N :=
  p <- get ;;
  match quark_index s (quark_table p) with
  | Some i =>
      let quark := N.of_nat (S i) in
      emit (EvGQuarkFromString s quark) ;;
      ret quark
  | None =>
      let quark := N.of_nat (S (length (quark_table p))) in
      modify (set_quark_table (quark_table p ++ [s])) ;;
      emit (EvGQuarkFromString s quark) ;;
      ret quark
  end.

(** ** The notification object *)

(** Modelled from the spec: the life-cycle state kept by the Notification base
    class (browser/notification.h, not under src/).  [Live] covers the spec's
    Created and Displayed, which are told apart by the native handle; the
    other four are the spec's terminal states. *)
Inductive Lifecycle :=
| Live
| Failed
| Dismissed
| Clicked
| Destroyed.

Record LibnotifyNotification := mkLibnotifyNotification {
  this : nat;
  notification_ : option NotifyNotification;
  lifecycle : Lifecycle
}.

(** LibnotifyNotification::LibnotifyNotification: [notification_(nullptr)]. *)
Definition Create (address : nat) : LibnotifyNotification :=
  {| this := address; notification_ := None; lifecycle := Live |}.

(** A method runs on its object and on the process state. *)
Record Ctx := mkCtx {
  self : LibnotifyNotification;
  proc : Process
}.

Definition liftP {A} (m : M Process A) : M Ctx A :=
  fun c =>
    match m (proc c) with
    | mkOut a p log => mkOut a {| self := self c; proc := p |} log
    end.

Definition set_notification_ (h : option NotifyNotification) (c : Ctx) : Ctx :=
  {| self := {| this := this (self c);
                notification_ := h;
                lifecycle := lifecycle (self c) |};
     proc := proc c |}.

Definition set_lifecycle (l : Lifecycle) (c : Ctx) : Ctx :=
  {| self := {| this := this (self c);
                notification_ := notification_ (self c);
                lifecycle := l |};
     proc := proc c |}.

(** A libnotify or GObject call on [notification_]: on a NULL instance the
    library's precondition check logs a critical warning and returns without
    doing anything; otherwise the call is made and updates the native object. *)
Definition on_notification_ (function : string) (e : event)
    (f : NotifyNotification -> NotifyNotification) : M Ctx unit :=
  c <- get ;;
  match notification_ (self c) with
  | None => emit (EvGLibCritical function)
  | Some h =>
      emit e ;;
      modify (set_notification_ (Some (f h)))
  end.

Definition notify_notification_new (summary body : string) : M Ctx NotifyNotification :=
  emit (EvNotifyNotificationNew summary body) ;;
  ret {| nn_summary := summary;
         nn_body := body;
         nn_closed_handlers := [];
         nn_actions := [];
         nn_image := None;
         nn_timeout := None;
         nn_id := 0%N;
         nn_hints := [] |}.

Definition g_signal_connect_closed (data : nat) : M Ctx unit :=
  on_notification_ "g_signal_connect_data" (EvGSignalConnect "closed" data)
    (fun h => {| nn_summary := nn_summary h;
                 nn_body := nn_body h;
                 nn_closed_handlers := nn_closed_handlers h ++ [data];
                 nn_actions := nn_actions h;
                 nn_image := nn_image h;
                 nn_timeout := nn_timeout h;
                 nn_id := nn_id h;
                 nn_hints := nn_hints h |}).

Definition notify_notification_add_action (action label : string) (data : nat)
  : M Ctx unit :=
  on_notification_ "notify_notification_add_action"
    (EvNotifyNotificationAddAction action label data)
    (fun h => {| nn_summary := nn_summary h;
                 nn_body := nn_body h;
                 nn_closed_handlers := nn_closed_handlers h;
                 nn_actions := nn_actions h ++ [(action, label, data)];
                 nn_image := nn_image h;
                 nn_timeout := nn_timeout h;
                 nn_id := nn_id h;
                 nn_hints := nn_hints h |}).

Definition notify_notification_set_image_from_pixbuf (pixbuf : GdkPixbuf)
  : M Ctx unit :=
  on_notification_ "notify_notification_set_image_from_pixbuf"
    (EvSetImageFromPixbuf pixbuf)
    (fun h => {| nn_summary := nn_summary h;
                 nn_body := nn_body h;
                 nn_closed_handlers := nn_closed_handlers h;
                 nn_actions := nn_actions h;
                 nn_image := Some pixbuf;
                 nn_timeout := nn_timeout h;
                 nn_id := nn_id h;
                 nn_hints := nn_hints h |}).

Definition NOTIFY_EXPIRES_DEFAULT : Z := -1.

Definition notify_notification_set_timeout (timeout : Z) : M Ctx unit :=
  on_notification_ "notify_notification_set_timeout" (EvSetTimeout timeout)
    (fun h => {| nn_summary := nn_summary h;
                 nn_body := nn_body h;
                 nn_closed_handlers := nn_closed_handlers h;
                 nn_actions := nn_actions h;
                 nn_image := nn_image h;
                 nn_timeout := Some timeout;
                 nn_id := nn_id h;
                 nn_hints := nn_hints h |}).

(** g_object_set(G_OBJECT(notification_), "id", id, NULL). *)
Definition g_object_set_id (id : N) : M Ctx unit :=
  on_notification_ "g_object_set" (EvGObjectSetId id)
    (fun h => {| nn_summary := nn_summary h;
                 nn_body := nn_body h;
                 nn_closed_handlers := nn_closed_handlers h;
                 nn_actions := nn_actions h;
                 nn_image := nn_image h;
                 nn_timeout := nn_timeout h;
                 nn_id := id;
                 nn_hints := nn_hints h |}).

Definition notify_notification_set_hint_string (key value : string) : M Ctx unit :=
  on_notification_ "notify_notification_set_hint_string"
    (EvSetHintString key value)
    (fun h => {| nn_summary := nn_summary h;
                 nn_body := nn_body h;
                 nn_closed_handlers := nn_closed_handlers h;
                 nn_actions := nn_actions h;
                 nn_image := nn_image h;
                 nn_timeout := nn_timeout h;
                 nn_id := nn_id h;
                 nn_hints := nn_hints h ++ [(key, value)] |}).

Definition is_error (e : option GError) : bool :=
  match e with
  | Some _ => true
  | None => false
  end.

(** notify_notification_show / notify_notification_close: [error] is filled
    in by the service's answer; on a NULL instance the precondition check
    returns before touching [error]. *)
Definition notify_notification_show (w : World) : M Ctx (option GError) :=
  c <- get ;;
  match notification_ (self c) with
  | None => emit (EvGLibCritical "notify_notification_show") ;; ret None
  | Some _ =>
      emit (EvNotifyNotificationShow (is_error (show_error w))) ;;
      ret (show_error w)
  end.

Definition notify_notification_close (w : World) : M Ctx (option GError) :=
  c <- get ;;
  match notification_ (self c) with
  | None => emit (EvGLibCritical "notify_notification_close") ;; ret None
  | Some _ =>
      emit (EvNotifyNotificationClose (is_error (close_error w))) ;;
      ret (close_error w)
  end.

Definition g_signal_handlers_disconnect_by_data (data : nat) : M Ctx unit :=
  on_notification_ "g_signal_handlers_disconnect_matched"
    (EvGSignalHandlersDisconnectByData data)
    (fun h => {| nn_summary := nn_summary h;
                 nn_body := nn_body h;
                 nn_closed_handlers :=
                   filter (fun d => negb (Nat.eqb d data)) (nn_closed_handlers h);
                 nn_actions := nn_actions h;
                 nn_image := nn_image h;
                 nn_timeout := nn_timeout h;
                 nn_id := nn_id h;
                 nn_hints := nn_hints h |}).

Definition g_object_unref_notification_ : M Ctx unit :=
  on_notification_ "g_object_unref" EvGObjectUnref (fun h => h).

Definition log_and_clear_error {S} (error : GError) (context : string) : M S unit :=
  emit (EvLogError context error) ;;
  emit EvGErrorFree.

(** Modelled from the spec: the helpers of the Notification base class
    (browser/notification.cc, not under src/).  Each of NotificationFailed,
    NotificationDismissed and NotificationClicked signals the delegate once
    and enters the terminal state of its name; Destroy is the local forced
    teardown, which signals nothing.  [delegate()->NotificationDisplayed()]
    is the call on the delegate that Show makes itself. *)
Definition delegate_signal (s : DelegateSignal) : M Ctx unit :=
  c <- get ;;
  emit (EvDelegate (this (self c)) s).

Definition NotificationFailed : M Ctx unit :=
  delegate_signal SigFailed ;;
  modify (set_lifecycle Failed).

Definition NotificationDismissed : M Ctx unit :=
  delegate_signal SigDismissed ;;
  modify (set_lifecycle Dismissed).

Definition NotificationClicked : M Ctx unit :=
  delegate_signal SigClicked ;;
  modify (set_lifecycle Clicked).

Definition Destroy : M Ctx unit :=
  c <- get ;;
  emit (EvDestroy (this (self c))) ;;
  modify (set_lifecycle Destroyed).

(** ** LibnotifyNotification *)

(** Short-circuit [&&] and [!] on effectful conditions. *)
Definition andM {S} (a b : M S bool) : M S bool :=
  x <- a ;;
  if x then b else ret false.

Definition notM {S} (a : M S bool) : M S bool :=
  x <- a ;;
  ret (negb x).

Definition libnotify_loader_Load (w : World) (library_name : string) : M Process bool :=
  emit (EvLoad library_name (Load w library_name)) ;;
  ret (Load w library_name).

Definition libnotify_loader_notify_is_initted (w : World) : M Process bool :=
  emit (EvNotifyIsInitted (notify_is_initted w)) ;;
  ret (notify_is_initted w).

Definition libnotify_loader_notify_init (w : World) (app_name : string)
  : M Process bool :=
  emit (EvNotifyInit app_name (notify_init w app_name)) ;;
  ret (notify_init w app_name).

Definition Initialize (w : World) : M Process bool :=
  unbound <- andM (andM (notM (libnotify_loader_Load w "libnotify.so.4"))
                        (notM (libnotify_loader_Load w "libnotify.so.1")))
                  (notM (libnotify_loader_Load w "libnotify.so")) ;;
  if unbound then ret false
  else
    uninitialized <- andM (notM (libnotify_loader_notify_is_initted w))
                          (notM (libnotify_loader_notify_init w
                                   (c_str (GetApplicationName w)))) ;;
    if uninitialized then ret false
    else ret true.

Definition empty (s : string) : bool :=
  match s with
  | EmptyString => true
  | String _ _ => false
  end.

Definition Show (w : World) (title body : list N) (tag : string)
    (icon_url : string) (icon : SkBitmap) (silent : bool) : M Ctx unit :=
  h <- notify_notification_new (c_str (UTF16ToUTF8 w title))
                               (c_str (UTF16ToUTF8 w body)) ;;
  modify (set_notification_ (Some h)) ;;
  c <- get ;;
  g_signal_connect_closed (this (self c)) ;;
  actions <- liftP (NotifierSupportsActions w) ;;
  when actions
    (notify_notification_add_action "default" "View" (this (self c))) ;;
  when (negb (drawsNothing icon))
    (let pixbuf := GdkPixbufFromSkBitmap w icon in
     notify_notification_set_image_from_pixbuf pixbuf ;;
     notify_notification_set_timeout NOTIFY_EXPIRES_DEFAULT ;;
     emit EvUnrefPixbuf) ;;
  when (negb (empty tag))
    (id <- liftP (g_quark_from_string (c_str tag)) ;;
     g_object_set_id id) ;;
  append <- liftP (HasCapability w "append") ;;
  (if append then
     notify_notification_set_hint_string "append" "true"
   else
     legacy <- liftP (HasCapability w "x-canonical-append") ;;
     when legacy
       (notify_notification_set_hint_string "x-canonical-append" "true")) ;;
  error <- notify_notification_show w ;;
  match error with
  | Some e =>
      log_and_clear_error e "notify_notification_show" ;;
      NotificationFailed
  | None => delegate_signal SigDisplayed
  end.

Definition Dismiss (w : World) : M Ctx unit :=
  error <- notify_notification_close w ;;
  match error with
  | Some e =>
      log_and_clear_error e "notify_notification_close" ;;
      Destroy
  | None => ret tt
  end.

Definition OnNotificationClosed : M Ctx unit :=
  NotificationDismissed.

Definition OnNotificationView : M Ctx unit :=
  NotificationClicked.

(** LibnotifyNotification::~LibnotifyNotification. *)
Definition destructor : M Ctx unit :=
  c <- get ;;
  g_signal_handlers_disconnect_by_data (this (self c)) ;;
  g_object_unref_notification_.

(** ** Runs of the process *)

Definition run {A} (m : M Ctx A) (o : LibnotifyNotification) (p : Process)
  : Out Ctx A :=
  m {| self := o; proc := p |}.

(** One operation of the file, by any notification object, in any world. *)
Inductive step : Process -> Process -> Prop :=
| step_Initialize w p :
    step p (state (Initialize w p))
| step_HasCapability w name p :
    step p (state (HasCapability w name p))
| step_NotifierSupportsActions w p :
    step p (state (NotifierSupportsActions w p))
| step_Show w title body tag icon_url icon silent o p :
    step p (proc (state (run (Show w title body tag icon_url icon silent) o p)))
| step_Dismiss w o p :
    step p (proc (state (run (Dismiss w) o p)))
| step_OnNotificationClosed o p :
    step p (proc (state (run OnNotificationClosed o p)))
| step_OnNotificationView o p :
    step p (proc (state (run OnNotificationView o p)))
| step_destructor o p :
    step p (proc (state (run destructor o p))).

Inductive steps : Process -> Process -> Prop :=
| steps_refl p : steps p p
| steps_next p q r : steps p q -> step q r -> steps p r.

Definition reachable (p : Process) : Prop := steps initial_process p.

(** ** Reading an event log *)

Definition delegate_signals (log : list event) : list DelegateSignal :=
  flat_map (fun e => match e with
                     | EvDelegate _ s => [s]
                     | _ => []
                     end) log.

Definition count_signal (s : DelegateSignal) (log : list event) : nat :=
  length (filter (DelegateSignal_eqb s) (delegate_signals log)).

Definition loads_attempted (log : list event) : list string :=
  flat_map (fun e => match e with
                     | EvLoad name _ => [name]
                     | _ => []
                     end) log.

Definition hints_set (log : list event) : list string :=
  flat_map (fun e => match e with
                     | EvSetHintString key _ => [key]
                     | _ => []
                     end) log.

Definition capability_queries (log : list event) : nat :=
  length (filter (fun e => match e with
                           | EvNotifyGetServerCaps _ => true
                           | _ => false
                           end) log).

Definition criticals (log : list event) : list string :=
  flat_map (fun e => match e with
                     | EvGLibCritical f => [f]
                     | _ => []
                     end) log.

Definition ids_assigned (log : list event) : list N :=
  flat_map (fun e => match e with
                     | EvGObjectSetId id => [id]
                     | _ => []
                     end) log.

Definition destroys (log : list event) : nat :=
  length (filter (fun e => match e with
                           | EvDestroy _ => true
                           | _ => false
                           end) log).

(** * Definitions used by the statements *)

Local Open Scope list_scope.

(** The spec's reading of the action-support predicate, for comparison with
    [NotifierSupportsActions]: false under the override, otherwise a fresh
    [HasCapability "actions"] on every call, with nothing remembered. *)
Definition SupportsActionButtons_recompute (w : World) : M Process bool :=
  match getenv w ELECTRON_USE_UBUNTU_NOTIFIER with
  | Some _ => ret false
  | None => HasCapability w "actions"
  end.

(** A sequence of calls of a predicate, one world per call. *)
Fixpoint call_each (f : World -> M Process bool) (ws : list World)
  : M Process (list bool) :=
  match ws with
  | [] => ret []
  | w :: rest =>
      b <- f w ;;
      bs <- call_each f rest ;;
      ret (b :: bs)
  end.

(** Membership of a name in a capability set, as a boolean. *)
Definition member (name : string) (caps : list string) : bool :=
  if in_dec string_dec name caps then true else false.

(** The candidate libraries of [Initialize], in the order it names them. *)
Definition candidates : list string :=
  ["libnotify.so.4"; "libnotify.so.1"; "libnotify.so"].

(** Binding attempts that stop at the first success. *)
Fixpoint attempts_until_bound (binds : string -> bool) (names : list string)
  : list string :=
  match names with
  | [] => []
  | n :: rest => if binds n then [n] else n :: attempts_until_bound binds rest
  end.

Definition handle_id (c : Ctx) : option N :=
  option_map nn_id (notification_ (self c)).

Definition handle_hints (c : Ctx) : list (string * string) :=
  match notification_ (self c) with
  | Some h => nn_hints h
  | None => []
  end.

(** Sample worlds: a service advertising actions and the legacy append
    capability, without and with the override set in the environment. *)
Definition notify_osd : World :=
  {| getenv := fun _ => None;
     Load := fun name => String.eqb name "libnotify.so.4";
     notify_is_initted := false;
     notify_init := fun _ => true;
     GetApplicationName := "brightray";
     server_caps := fun _ => ["actions"; "x-canonical-append"];
     UTF16ToUTF8 := fun _ => "Build complete";
     GdkPixbufFromSkBitmap := fun bm => mkGdkPixbuf (bm_width bm) (bm_height bm);
     show_error := None;
     close_error := None |}.

Definition notify_osd_override : World :=
  {| getenv := fun name =>
       if String.eqb name ELECTRON_USE_UBUNTU_NOTIFIER then Some "1" else None;
     Load := Load notify_osd;
     notify_is_initted := notify_is_initted notify_osd;
     notify_init := notify_init notify_osd;
     GetApplicationName := GetApplicationName notify_osd;
     server_caps := server_caps notify_osd;
     UTF16ToUTF8 := UTF16ToUTF8 notify_osd;
     GdkPixbufFromSkBitmap := GdkPixbufFromSkBitmap notify_osd;
     show_error := show_error notify_osd;
     close_error := close_error notify_osd |}.

(** The override world again, against a service that advertises nothing. *)
Definition bare_override : World :=
  {| getenv := getenv notify_osd_override;
     Load := Load notify_osd;
     notify_is_initted := notify_is_initted notify_osd;
     notify_init := notify_init notify_osd;
     GetApplicationName := GetApplicationName notify_osd;
     server_caps := fun _ => [];
     UTF16ToUTF8 := UTF16ToUTF8 notify_osd;
     GdkPixbufFromSkBitmap := GdkPixbufFromSkBitmap notify_osd;
     show_error := show_error notify_osd;
     close_error := close_error notify_osd |}.

(** The answers a sequence of calls gets when every call asks the service:
    call number [i] reads the reply to round trip [n + i]. *)
Fixpoint live_answers (ws : list World) (n : nat) : list bool :=
  match ws with
  | [] => []
  | w :: rest => member "actions" (server_caps w n) :: live_answers rest (S n)
  end.

Definition override_unset (w : World) : Prop :=
  getenv w ELECTRON_USE_UBUNTU_NOTIFIER = None.

(** Two process states that differ at most in the remembered answer. *)
Definition same_service_view (p q : Process) : Prop :=
  quark_table p = quark_table q /\ round_trips p = round_trips q.

(** A service that starts advertising actions between two calls. *)
Definition notify_osd_no_actions : World :=
  {| getenv := getenv notify_osd;
     Load := Load notify_osd;
     notify_is_initted := notify_is_initted notify_osd;
     notify_init := notify_init notify_osd;
     GetApplicationName := GetApplicationName notify_osd;
     server_caps := fun _ => ["body"];
     UTF16ToUTF8 := UTF16ToUTF8 notify_osd;
     GdkPixbufFromSkBitmap := GdkPixbufFromSkBitmap notify_osd;
     show_error := show_error notify_osd;
     close_error := close_error notify_osd |}.

Definition any_bound (w : World) : bool :=
  existsb (Load w) candidates.

(** The round trips the action-support predicate makes before the append
    capabilities are asked for. *)
Definition actions_queries (w : World) (p : Process) : nat :=
  match getenv w ELECTRON_USE_UBUNTU_NOTIFIER with
  | Some _ => 0
  | None => if notify_has_result p then 0 else 1
  end.

Definition append_hint (primary legacy : bool) : list string :=
  if primary then ["append"]
  else if legacy then ["x-canonical-append"]
  else [].

(** The position at which a string is, or will be, interned. *)
Definition quark_slot (s : string) (table : list string) : nat :=
  match quark_index s table with
  | Some i => i
  | None => length table
  end.

Definition no_icon : SkBitmap := mkSkBitmap 0 0 false.

Definition no_url : string := EmptyString.

(** Two tags that differ only after an embedded NUL character. *)
Definition nul_tag_b : string := String "a" (String Ascii.zero "b").

Definition nul_tag_c : string := String "a" (String Ascii.zero "c").

Definition shown_notification : LibnotifyNotification :=
  self (state (run (Show notify_osd [] [] "ci-status" no_url no_icon false)
                   (Create 1) initial_process)).

Definition handle_of (o : LibnotifyNotification) : NotifyNotification :=
  match notification_ o with
  | Some h => h
  | None =>
      {| nn_summary := EmptyString; nn_body := EmptyString; nn_closed_handlers := [];
         nn_actions := []; nn_image := None; nn_timeout := None;
         nn_id := 0%N; nn_hints := [] |}
  end.

(** ** Further readings of a log and of the native handle *)

(** What the action-support predicate answers in a given process state. *)
Definition actions_answer (w : World) (p : Process) : bool :=
  match getenv w ELECTRON_USE_UBUNTU_NOTIFIER with
  | Some _ => false
  | None =>
      if notify_has_result p then notify_result p
      else member "actions" (server_caps w (round_trips p))
  end.

Definition reply_frees (log : list event) : nat :=
  length (filter (fun e => match e with
                           | EvGListFreeFull _ => true
                           | _ => false
                           end) log).

Definition pixbuf_unrefs (log : list event) : nat :=
  length (filter (fun e => match e with
                           | EvUnrefPixbuf => true
                           | _ => false
                           end) log).

Definition images_set (log : list event) : list GdkPixbuf :=
  flat_map (fun e => match e with
                     | EvSetImageFromPixbuf pixbuf => [pixbuf]
                     | _ => []
                     end) log.

Definition actions_added (log : list event) : list (string * string * nat) :=
  flat_map (fun e => match e with
                     | EvNotifyNotificationAddAction action label data =>
                         [(action, label, data)]
                     | _ => []
                     end) log.

Definition error_reports (log : list event) : list (string * GError) :=
  flat_map (fun e => match e with
                     | EvLogError context error => [(context, error)]
                     | _ => []
                     end) log.

Definition error_frees (log : list event) : nat :=
  length (filter (fun e => match e with
                           | EvGErrorFree => true
                           | _ => false
                           end) log).

(** Calls that give up the native handle or its signal connections. *)
Definition releases (log : list event) : nat :=
  length (filter (fun e => match e with
                           | EvGObjectUnref => true
                           | EvGSignalHandlersDisconnectByData _ => true
                           | _ => false
                           end) log).

Definition close_calls (log : list event) : nat :=
  length (filter (fun e => match e with
                           | EvNotifyNotificationClose _ => true
                           | _ => false
                           end) log).

(** Calls through the function table of the bound library. *)
Definition library_calls (log : list event) : list event :=
  filter (fun e => match e with
                   | EvNotifyIsInitted _ => true
                   | EvNotifyInit _ _ => true
                   | _ => false
                   end) log.

Definition is_submission (e : event) : bool :=
  match e with
  | EvNotifyNotificationShow _ => true
  | _ => false
  end.

(** Calls that create or configure the native handle. *)
Definition configures (e : event) : bool :=
  match e with
  | EvNotifyNotificationNew _ _ => true
  | EvGSignalConnect _ _ => true
  | EvNotifyNotificationAddAction _ _ _ => true
  | EvSetImageFromPixbuf _ => true
  | EvSetTimeout _ => true
  | EvGObjectSetId _ => true
  | EvSetHintString _ _ => true
  | _ => false
  end.

Fixpoint before_submission (log : list event) : list event :=
  match log with
  | [] => []
  | e :: rest => if is_submission e then [] else e :: before_submission rest
  end.

Fixpoint after_submission (log : list event) : list event :=
  match log with
  | [] => []
  | e :: rest => if is_submission e then rest else after_submission rest
  end.

Definition handle_actions (c : Ctx) : list (string * string * nat) :=
  match notification_ (self c) with
  | Some h => nn_actions h
  | None => []
  end.

Definition handle_image (c : Ctx) : option GdkPixbuf :=
  match notification_ (self c) with
  | Some h => nn_image h
  | None => None
  end.

Definition handle_timeout (c : Ctx) : option Z :=
  match notification_ (self c) with
  | Some h => nn_timeout h
  | None => None
  end.

Definition handle_closed_handlers (c : Ctx) : list nat :=
  match notification_ (self c) with
  | Some h => nn_closed_handlers h
  | None => []
  end.

(** One capability check, as it appears in a log. *)
Definition check_events (w : World) (n : nat) : list event :=
  [EvNotifyGetServerCaps n; EvGListFreeFull (length (server_caps w n))].

(** The calls of Show in the order it makes them, as its branches decide. *)
Definition Show_events (w : World) (title body : list N) (tag : string)
    (icon : SkBitmap) (o : LibnotifyNotification) (p : Process) : list event :=
  let k := round_trips p + actions_queries w p in
  [EvNotifyNotificationNew (c_str (UTF16ToUTF8 w title))
     (c_str (UTF16ToUTF8 w body));
   EvGSignalConnect "closed" (this o)]
  ++ (if Nat.eqb (actions_queries w p) 0 then []
      else check_events w (round_trips p))
  ++ (if actions_answer w p
      then [EvNotifyNotificationAddAction "default" "View" (this o)]
      else [])
  ++ (if drawsNothing icon then []
      else [EvSetImageFromPixbuf (GdkPixbufFromSkBitmap w icon);
            EvSetTimeout NOTIFY_EXPIRES_DEFAULT;
            EvUnrefPixbuf])
  ++ (if empty tag then []
      else
        let quark := N.of_nat (S (quark_slot (c_str tag) (quark_table p))) in
        [EvGQuarkFromString (c_str tag) quark; EvGObjectSetId quark])
  ++ check_events w k
  ++ (if member "append" (server_caps w k)
      then [EvSetHintString "append" "true"]
      else check_events w (S k)
           ++ (if member "x-canonical-append" (server_caps w (S k))
               then [EvSetHintString "x-canonical-append" "true"]
               else []))
  ++ [EvNotifyNotificationShow (is_error (show_error w))]
  ++ match show_error w with
     | Some e =>
         [EvLogError "notify_notification_show" e; EvGErrorFree;
          EvDelegate (this o) SigFailed]
     | None => [EvDelegate (this o) SigDisplayed]
     end.

(** One operation of the file together with the calls it makes. *)
Inductive performs : Process -> list event -> Process -> Prop :=
| performs_Initialize w p :
    performs p (emitted (Initialize w p)) (state (Initialize w p))
| performs_HasCapability w name p :
    performs p (emitted (HasCapability w name p))
             (state (HasCapability w name p))
| performs_NotifierSupportsActions w p :
    performs p (emitted (NotifierSupportsActions w p))
             (state (NotifierSupportsActions w p))
| performs_Show w title body tag icon_url icon silent o p :
    performs p
      (emitted (run (Show w title body tag icon_url icon silent) o p))
      (proc (state (run (Show w title body tag icon_url icon silent) o p)))
| performs_Dismiss w o p :
    performs p (emitted (run (Dismiss w) o p))
             (proc (state (run (Dismiss w) o p)))
| performs_OnNotificationClosed o p :
    performs p (emitted (run OnNotificationClosed o p))
             (proc (state (run OnNotificationClosed o p)))
| performs_OnNotificationView o p :
    performs p (emitted (run OnNotificationView o p))
             (proc (state (run OnNotificationView o p)))
| performs_destructor o p :
    performs p (emitted (run destructor o p))
             (proc (state (run destructor o p))).

(** A world whose service rejects both the submission and the close. *)
Definition failing_service : World :=
  {| getenv := getenv notify_osd;
     Load := fun _ => false;
     notify_is_initted := notify_is_initted notify_osd;
     notify_init := notify_init notify_osd;
     GetApplicationName := GetApplicationName notify_osd;
     server_caps := server_caps notify_osd;
     UTF16ToUTF8 := UTF16ToUTF8 notify_osd;
     GdkPixbufFromSkBitmap := GdkPixbufFromSkBitmap notify_osd;
     show_error := Some (mkGError 7 2 "no reply");
     close_error := Some (mkGError 7 3 "gone") |}.

(** A world with the override variable set to [v], otherwise as [w]. *)
Definition with_override (v : string) (w : World) : World :=
  {| getenv := fun name =>
       if String.eqb name ELECTRON_USE_UBUNTU_NOTIFIER then Some v
       else getenv w name;
     Load := Load w;
     notify_is_initted := notify_is_initted w;
     notify_init := notify_init w;
     GetApplicationName := GetApplicationName w;
     server_caps := server_caps w;
     UTF16ToUTF8 := UTF16ToUTF8 w;
     GdkPixbufFromSkBitmap := GdkPixbufFromSkBitmap w;
     show_error := show_error w;
     close_error := close_error w |}.

(** A native notification with its actions taken away. *)
Definition without_actions (h : NotifyNotification) : NotifyNotification :=
  {| nn_summary := nn_summary h;
     nn_body := nn_body h;
     nn_closed_handlers := nn_closed_handlers h;
     nn_actions := [];
     nn_image := nn_image h;
     nn_timeout := nn_timeout h;
     nn_id := nn_id h;
     nn_hints := nn_hints h |}.

(** * Properties *)

(** ** Capability negotiation *)

Lemma string_compare_refl (s : string) : String.compare s s = Eq.
Proof.
  pose proof (String.compare_antisym s s) as H.
  destruct (String.compare s s); [reflexivity | discriminate H | discriminate H].
Qed.

Lemma strcmp_eq (a b : string) : strcmp a b = 0%Z <-> a = b.
Proof.
  unfold strcmp. split.
  - destruct (String.compare a b) eqn:E; try discriminate.
    intros _. now apply String.compare_eq_iff.
  - intros ->. now rewrite string_compare_refl.
Qed.

Lemma member_In (name : string) (caps : list string) :
  member name caps = true <-> In name caps.
Proof.
  unfold member. destruct (in_dec string_dec name caps); split; auto; discriminate.
Qed.

Lemma g_list_find_custom_member (name : string) (caps : list string) :
  match g_list_find_custom (map Some caps) (Some name) g_strcmp0 with
  | Some _ => true
  | None => false
  end = member name caps.
Proof.
  induction caps as [|c caps IH]; [reflexivity|].
  cbn [map g_list_find_custom g_strcmp0].
  destruct (strcmp c name =? 0)%Z eqn:E.
  - apply Z.eqb_eq, strcmp_eq in E. subst c.
    symmetry. apply member_In. now left.
  - rewrite IH. apply Z.eqb_neq in E.
    unfold member.
    destruct (in_dec string_dec name caps) as [i|n],
             (in_dec string_dec name (c :: caps)) as [i'|n']; try reflexivity.
    + exfalso. apply n'. now right.
    + destruct i' as [->|i']; [|contradiction].
      exfalso. apply E. now apply strcmp_eq.
Qed.

(** What one capability check does: one round trip, the reply searched for
    the name, the reply freed. *)
Lemma HasCapability_run (w : World) (name : string) (p : Process) :
  HasCapability w name p =
  mkOut (member (c_str name) (server_caps w (round_trips p)))
        (set_round_trips (S (round_trips p)) p)
        [EvNotifyGetServerCaps (round_trips p);
         EvGListFreeFull (length (server_caps w (round_trips p)))].
Proof.
  unfold HasCapability, notify_get_server_caps, g_list_free_full,
    bind, ret, emit, get, modify.
  cbn. rewrite g_list_find_custom_member, length_map. reflexivity.
Qed.

(** What [c_str] reads is a C string: reading it again changes nothing. *)
Lemma c_str_idempotent (s : string) : c_str (c_str s) = c_str s.
Proof.
  induction s as [|c s IH]; [reflexivity|].
  cbn. destruct (Ascii.eqb c Ascii.zero) eqn:E; [reflexivity|].
  cbn. now rewrite E, IH.
Qed.

(** A capability check decides membership of the name as [c_str] reads it. *)
Lemma HasCapability_reads_c_str (w : World) (name : string) (p : Process) :
  value (HasCapability w name p) = true
  <-> In (c_str name) (server_caps w (round_trips p)).
Proof.
  rewrite HasCapability_run. cbn [value]. apply member_In.
Qed.

(** C4. For every capability name, a C string like the names a service
    advertises and like every name the file passes, and for every set the
    service returns to the query, a capability check answers true exactly
    when the name is a member of that set (membership is equality of
    strings, so it is exact and case-sensitive).  On an empty set the answer
    is false.  The check is one query followed by freeing the reply. *)
Theorem HasCapability_exact_member
    (w : World) (name : string) (p : Process)
    (Hname : c_str name = name) :
  (value (HasCapability w name p) = true
     <-> In name (server_caps w (round_trips p))) /\
  (server_caps w (round_trips p) = [] -> value (HasCapability w name p) = false) /\
  emitted (HasCapability w name p) =
    [EvNotifyGetServerCaps (round_trips p);
     EvGListFreeFull (length (server_caps w (round_trips p)))].
Proof.
  rewrite HasCapability_run, Hname. cbn [value emitted].
  split; [apply member_In|].
  split; [|reflexivity].
  intros ->. reflexivity.
Qed.

(** The three names the file asks for are C strings; against a service that
    advertises "actions" and "x-canonical-append" the checks answer true,
    false and true. *)
Lemma HasCapability_exact_member_witness :
  (c_str "actions" = "actions" /\
   c_str "append" = "append" /\
   c_str "x-canonical-append" = "x-canonical-append") /\
  value (HasCapability notify_osd "actions" initial_process) = true /\
  value (HasCapability notify_osd "append" initial_process) <> true /\
  value (HasCapability notify_osd "x-canonical-append" initial_process) = true.
Proof.
  split; [repeat split|].
  split; [|split].
  - apply (proj1 (HasCapability_exact_member notify_osd "actions"
                    initial_process eq_refl)).
    cbn. now left.
  - intros H.
    apply (proj1 (HasCapability_exact_member notify_osd "append"
                    initial_process eq_refl)) in H.
    cbn in H. destruct H as [H|[H|[]]]; discriminate H.
  - apply (proj1 (HasCapability_exact_member notify_osd "x-canonical-append"
                    initial_process eq_refl)).
    cbn. right. now left.
Defined.

(** Exactness on ordinary names: the comparison is case-sensitive. *)
Lemma HasCapability_case_sensitive :
  value (HasCapability notify_osd "actions" initial_process) = true /\
  value (HasCapability notify_osd "Actions" initial_process) = false.
Proof. split; reflexivity. Qed.

Lemma NotifierSupportsActions_run (w : World) (p : Process) :
  notify_has_result p = false ->
  NotifierSupportsActions w p =
  match getenv w ELECTRON_USE_UBUNTU_NOTIFIER with
  | Some _ => mkOut false p []
  | None =>
      let r := HasCapability w "actions" p in
      mkOut (value r) (set_notify_result (value r) (state r)) (emitted r)
  end.
Proof.
  intros Hflag. unfold NotifierSupportsActions.
  destruct (getenv w ELECTRON_USE_UBUNTU_NOTIFIER); [reflexivity|].
  unfold bind, get, ret, modify. cbn -[HasCapability].
  rewrite Hflag.
  destruct (HasCapability w "actions" p) as [v s log].
  cbn. now rewrite app_nil_r.
Qed.

(** ** What an operation leaves alone *)

Ltac unfold_ops :=
  unfold run, Show, Dismiss, OnNotificationClosed, OnNotificationView, destructor,
    Initialize, NotifierSupportsActions, HasCapability,
    NotificationFailed, NotificationDismissed, NotificationClicked, Destroy,
    delegate_signal, log_and_clear_error,
    notify_notification_show, notify_notification_close,
    notify_notification_set_hint_string, g_object_set_id,
    notify_notification_set_timeout, notify_notification_set_image_from_pixbuf,
    notify_notification_add_action, g_signal_connect_closed,
    g_signal_handlers_disconnect_by_data, g_object_unref_notification_,
    notify_notification_new, on_notification_, g_quark_from_string,
    notify_get_server_caps, g_list_free_full,
    libnotify_loader_Load, libnotify_loader_notify_is_initted,
    libnotify_loader_notify_init, andM, notM, when, liftP,
    bind, ret, emit, get, modify in *.

Ltac split_cases :=
  repeat match goal with
         | |- context [match ?x with _ => _ end] =>
             lazymatch x with
             | context [match _ with _ => _ end] => fail
             | _ => destruct x eqn:?; cbn in *
             end
         end.

Ltac extends_table :=
  first [ exists []; rewrite app_nil_r; reflexivity
        | eexists; reflexivity ].

(** No operation writes the flag that guards the remembered answer, and the
    quark table only grows at its end. *)
Lemma step_frame (p q : Process) :
  step p q ->
  notify_has_result q = notify_has_result p /\
  exists added, quark_table q = quark_table p ++ added.
Proof.
  destruct 1; unfold_ops; cbn; split_cases;
    (split; [first [reflexivity | assumption | congruence] | extends_table]).
Qed.

Lemma steps_frame (p q : Process) :
  steps p q ->
  notify_has_result q = notify_has_result p /\
  exists added, quark_table q = quark_table p ++ added.
Proof.
  induction 1 as [p | p q r _ [IHflag [l IHtable]] Hstep].
  - split; [reflexivity | extends_table].
  - apply step_frame in Hstep. destruct Hstep as [Hflag [l' Htable]].
    split; [congruence|].
    exists (l ++ l'). now rewrite Htable, IHtable, app_assoc.
Qed.

Lemma reachable_flag (p : Process) :
  reachable p -> notify_has_result p = false.
Proof.
  intros H. apply steps_frame in H. now destruct H as [-> _].
Qed.

(** C3. In every reachable process state and for every capability set the
    service may advertise: with the override variable set the predicate
    answers false, also when "actions" is advertised; with it unset the
    predicate answers what the "actions" capability check answers. *)
Theorem NotifierSupportsActions_override_else_actions
    (w : World) (p : Process) (Hp : reachable p) :
  (getenv w ELECTRON_USE_UBUNTU_NOTIFIER <> None ->
     value (NotifierSupportsActions w p) = false) /\
  (getenv w ELECTRON_USE_UBUNTU_NOTIFIER = None ->
     value (NotifierSupportsActions w p) = value (HasCapability w "actions" p) /\
     (value (NotifierSupportsActions w p) = true
        <-> In "actions" (server_caps w (round_trips p)))).
Proof.
  rewrite (NotifierSupportsActions_run w p (reachable_flag p Hp)).
  destruct (getenv w ELECTRON_USE_UBUNTU_NOTIFIER) as [v|].
  - split; [reflexivity | discriminate].
  - split; [congruence|]. intros _.
    split; [reflexivity|].
    cbn [value]. rewrite HasCapability_run. apply member_In.
Qed.

Lemma NotifierSupportsActions_override_else_actions_witness :
  reachable initial_process /\
  In "actions" (server_caps notify_osd_override (round_trips initial_process)) /\
  value (NotifierSupportsActions notify_osd_override initial_process) = false /\
  value (NotifierSupportsActions notify_osd initial_process) = true.
Proof.
  assert (R : reachable initial_process) by apply steps_refl.
  split; [exact R|].
  split; [now left|].
  split.
  - apply (proj1 (NotifierSupportsActions_override_else_actions
                    notify_osd_override initial_process R)).
    discriminate.
  - apply (proj2 (NotifierSupportsActions_override_else_actions
                    notify_osd initial_process R) eq_refl).
    now left.
Defined.

(** C10. With the override variable set the predicate answers false, makes no
    capability query and leaves the process state as it was; so two runs
    against services advertising anything whatever are indistinguishable. *)
Theorem NotifierSupportsActions_override_no_query
    (w1 w2 : World) (p : Process)
    (H1 : getenv w1 ELECTRON_USE_UBUNTU_NOTIFIER <> None)
    (H2 : getenv w2 ELECTRON_USE_UBUNTU_NOTIFIER <> None) :
  NotifierSupportsActions w1 p = NotifierSupportsActions w2 p /\
  value (NotifierSupportsActions w1 p) = false /\
  capability_queries (emitted (NotifierSupportsActions w1 p)) = 0 /\
  emitted (NotifierSupportsActions w1 p) = [] /\
  state (NotifierSupportsActions w1 p) = p.
Proof.
  unfold NotifierSupportsActions.
  destruct (getenv w1 ELECTRON_USE_UBUNTU_NOTIFIER); [|contradiction].
  destruct (getenv w2 ELECTRON_USE_UBUNTU_NOTIFIER); [|contradiction].
  repeat split.
Qed.

Lemma NotifierSupportsActions_override_no_query_witness :
  server_caps notify_osd_override 0 <> server_caps bare_override 0 /\
  NotifierSupportsActions notify_osd_override initial_process =
    NotifierSupportsActions bare_override initial_process /\
  value (NotifierSupportsActions notify_osd_override initial_process) = false.
Proof.
  split; [discriminate|].
  assert (H1 : getenv notify_osd_override ELECTRON_USE_UBUNTU_NOTIFIER <> None)
    by discriminate.
  assert (H2 : getenv bare_override ELECTRON_USE_UBUNTU_NOTIFIER <> None)
    by discriminate.
  pose proof (NotifierSupportsActions_override_no_query
                notify_osd_override bare_override initial_process H1 H2) as T.
  split; [exact (proj1 T) | exact (proj1 (proj2 T))].
Defined.

(** ** The remembered answer is never reused *)

Lemma call_each_cons (f : World -> M Process bool) (w : World)
    (ws : list World) (p : Process) :
  call_each f (w :: ws) p =
  mkOut (value (f w p) :: value (call_each f ws (state (f w p))))
        (state (call_each f ws (state (f w p))))
        (emitted (f w p) ++ emitted (call_each f ws (state (f w p)))).
Proof.
  cbn [call_each]. unfold bind, ret.
  destruct (f w p) as [b p' log]. cbn [value state emitted].
  destruct (call_each f ws p') as [bs p'' log']. cbn [value state emitted].
  now rewrite app_nil_r.
Qed.

Lemma call_each_simulation (ws : list World) :
  forall p q,
    notify_has_result p = false ->
    same_service_view p q ->
    value (call_each NotifierSupportsActions ws p) =
      value (call_each SupportsActionButtons_recompute ws q) /\
    emitted (call_each NotifierSupportsActions ws p) =
      emitted (call_each SupportsActionButtons_recompute ws q) /\
    notify_has_result (state (call_each NotifierSupportsActions ws p)) = false /\
    same_service_view (state (call_each NotifierSupportsActions ws p))
                      (state (call_each SupportsActionButtons_recompute ws q)).
Proof.
  induction ws as [|w ws IH]; intros p q Hflag [Htable Htrips].
  - cbn. repeat split; assumption.
  - rewrite !call_each_cons. cbn [value state emitted].
    rewrite (NotifierSupportsActions_run w p Hflag).
    unfold SupportsActionButtons_recompute.
    destruct (getenv w ELECTRON_USE_UBUNTU_NOTIFIER) as [v|].
    + cbn [ret value state emitted].
      destruct (IH p q Hflag (conj Htable Htrips)) as (Hv & He & Hf & Hs).
      rewrite Hv, He. repeat split; solve [assumption | apply Hs].
    + cbn zeta. rewrite !HasCapability_run. cbn [value state emitted].
      rewrite <- Htrips.
      set (p' := set_notify_result _ _).
      set (q' := set_round_trips _ q).
      assert (Hflag' : notify_has_result p' = false) by exact Hflag.
      assert (Hview : same_service_view p' q')
        by (split; [exact Htable | reflexivity]).
      destruct (IH p' q' Hflag' Hview) as (Hv & He & Hf & Hs).
      rewrite Hv, He. repeat split; solve [assumption | apply Hs].
Qed.

Lemma call_each_live (ws : list World) :
  forall p,
    notify_has_result p = false ->
    Forall override_unset ws ->
    value (call_each NotifierSupportsActions ws p) =
      live_answers ws (round_trips p) /\
    capability_queries (emitted (call_each NotifierSupportsActions ws p)) =
      length ws /\
    round_trips (state (call_each NotifierSupportsActions ws p)) =
      round_trips p + length ws.
Proof.
  induction ws as [|w ws IH]; intros p Hflag Hunset.
  - cbn. repeat split. lia.
  - inversion Hunset as [|w' ws' Hw Hws]; subst.
    rewrite call_each_cons. cbn [value state emitted live_answers length].
    rewrite (NotifierSupportsActions_run w p Hflag), Hw.
    cbn zeta. rewrite !HasCapability_run. cbn [value state emitted].
    set (p' := set_notify_result _ _).
    assert (Hflag' : notify_has_result p' = false) by exact Hflag.
    destruct (IH p' Hflag' Hws) as (Hv & Hq & Hr).
    rewrite Hv, Hr.
    unfold capability_queries in *. cbn [app filter length].
    rewrite Hq. cbn [round_trips p' set_notify_result set_round_trips].
    repeat split. lia.
Qed.

(** C5. The flag that would let the predicate return its remembered answer is
    false in every reachable state, so over any sequence of calls the
    predicate gives the same answers and makes the same native calls as the
    always-recompute definition, and leaves the service-visible state the
    same; when the override is unset in each call, call number i answers from
    the service's reply to its own query, one query per call. *)
Theorem NotifierSupportsActions_never_cached
    (ws : list World) (p : Process) (Hp : reachable p) :
  notify_has_result p = false /\
  notify_has_result (state (call_each NotifierSupportsActions ws p)) = false /\
  value (call_each NotifierSupportsActions ws p) =
    value (call_each SupportsActionButtons_recompute ws p) /\
  emitted (call_each NotifierSupportsActions ws p) =
    emitted (call_each SupportsActionButtons_recompute ws p) /\
  same_service_view (state (call_each NotifierSupportsActions ws p))
                    (state (call_each SupportsActionButtons_recompute ws p)) /\
  (Forall override_unset ws ->
     value (call_each NotifierSupportsActions ws p) =
       live_answers ws (round_trips p) /\
     capability_queries (emitted (call_each NotifierSupportsActions ws p)) =
       length ws).
Proof.
  pose proof (reachable_flag p Hp) as Hflag.
  destruct (call_each_simulation ws p p Hflag (conj eq_refl eq_refl))
    as (Hv & He & Hf & Hs).
  split; [exact Hflag|].
  split; [exact Hf|].
  split; [exact Hv|].
  split; [exact He|].
  split; [exact Hs|].
  intros Hunset.
  destruct (call_each_live ws p Hflag Hunset) as (Hlive & Hqueries & _).
  now split.
Qed.

Lemma NotifierSupportsActions_never_cached_witness :
  reachable initial_process /\
  value (call_each NotifierSupportsActions
           [notify_osd_no_actions; notify_osd; notify_osd_no_actions]
           initial_process) = [false; true; false].
Proof.
  assert (R : reachable initial_process) by apply steps_refl.
  split; [exact R|].
  assert (U : Forall override_unset
                [notify_osd_no_actions; notify_osd; notify_osd_no_actions])
    by (repeat constructor).
  pose proof (NotifierSupportsActions_never_cached
                [notify_osd_no_actions; notify_osd; notify_osd_no_actions]
                initial_process R) as T.
  destruct T as (_ & _ & _ & _ & _ & L).
  exact (proj1 (L U)).
Defined.

(** ** Binding *)

Lemma any_bound_true (w : World) :
  any_bound w = true <-> exists name, In name candidates /\ Load w name = true.
Proof. apply existsb_exists. Qed.

Lemma any_bound_false (w : World) :
  any_bound w = false <-> forall name, In name candidates -> Load w name = false.
Proof.
  split.
  - intros H name Hin.
    destruct (Load w name) eqn:E; [|reflexivity].
    rewrite <- H. symmetry. apply any_bound_true. now exists name.
  - intros H. destruct (any_bound w) eqn:E; [|reflexivity].
    apply any_bound_true in E. destruct E as (name & Hin & Hb).
    now rewrite (H name Hin) in Hb.
Qed.

(** Initialize, evaluated: the answer and the calls it makes. *)
Lemma Initialize_run (w : World) (p : Process) :
  Initialize w p =
  mkOut (any_bound w &&
           (notify_is_initted w || notify_init w (c_str (GetApplicationName w))))
        p
        (map (fun name => EvLoad name (Load w name))
             (attempts_until_bound (Load w) candidates)
         ++ (if any_bound w then
               EvNotifyIsInitted (notify_is_initted w)
               :: (if notify_is_initted w then []
                   else [EvNotifyInit (c_str (GetApplicationName w))
                           (notify_init w (c_str (GetApplicationName w)))])
             else [])).
Proof.
  unfold Initialize, any_bound, candidates, andM, notM, libnotify_loader_Load,
    libnotify_loader_notify_is_initted, libnotify_loader_notify_init,
    bind, ret, emit.
  cbn [existsb attempts_until_bound].
  destruct (Load w "libnotify.so.4") eqn:L4;
    [|destruct (Load w "libnotify.so.1") eqn:L1;
      [|destruct (Load w "libnotify.so") eqn:L0]];
    cbn [map]; rewrite ?L4, ?L1, ?L0;
    destruct (notify_is_initted w);
    destruct (notify_init w (c_str (GetApplicationName w)));
    reflexivity.
Qed.
Lemma loads_attempted_map (w : World) (names : list string) (rest : list event) :
  (forall e, In e rest -> match e with EvLoad _ _ => False | _ => True end) ->
  loads_attempted (map (fun name => EvLoad name (Load w name)) names ++ rest) = names.
Proof.
  intros Hrest. unfold loads_attempted. rewrite flat_map_app.
  replace (flat_map _ rest) with (@nil string).
  - rewrite app_nil_r. induction names as [|n names IH]; [reflexivity|].
    cbn. now rewrite IH.
  - induction rest as [|e rest IH]; [reflexivity|].
    cbn. pose proof (Hrest e (or_introl eq_refl)) as He.
    destruct e; try contradiction; cbn; apply IH; intros; apply Hrest; now right.
Qed.

Lemma attempts_until_bound_first (binds : string -> bool)
    (earlier later : list string) (name : string) :
  (forall n, In n earlier -> binds n = false) ->
  binds name = true ->
  attempts_until_bound binds (earlier ++ name :: later) = earlier ++ [name].
Proof.
  intros Hearlier Hname.
  induction earlier as [|e earlier IH]; cbn.
  - now rewrite Hname.
  - rewrite (Hearlier e (or_introl eq_refl)).
    f_equal. apply IH. intros n Hn. apply Hearlier. now right.
Qed.

(** C2. The libraries are tried in the order libnotify.so.4, libnotify.so.1,
    libnotify.so, up to and including the first that binds: whatever the
    outcomes, once a candidate binds none after it is attempted.  The result
    is false exactly when none binds, or one binds, the service reports
    itself not initialised and the initialisation call fails (a call made
    only in that case). *)
Theorem Initialize_first_bind (w : World) (p : Process) :
  candidates = ["libnotify.so.4"; "libnotify.so.1"; "libnotify.so"] /\
  loads_attempted (emitted (Initialize w p)) =
    attempts_until_bound (Load w) candidates /\
  (forall earlier name later,
     candidates = earlier ++ name :: later ->
     (forall n, In n earlier -> Load w n = false) ->
     Load w name = true ->
     loads_attempted (emitted (Initialize w p)) = earlier ++ [name]) /\
  (value (Initialize w p) = false <->
     (forall name, In name candidates -> Load w name = false) \/
     ((exists name, In name candidates /\ Load w name = true) /\
      notify_is_initted w = false /\
      notify_init w (c_str (GetApplicationName w)) = false)) /\
  (In (EvNotifyInit (c_str (GetApplicationName w))
                    (notify_init w (c_str (GetApplicationName w))))
      (emitted (Initialize w p)) <->
     (exists name, In name candidates /\ Load w name = true) /\
     notify_is_initted w = false).
Proof.
  rewrite Initialize_run. cbn [value emitted].
  rewrite <- any_bound_true, <- any_bound_false.
  assert (Hloads :
    loads_attempted
      (map (fun name => EvLoad name (Load w name))
           (attempts_until_bound (Load w) candidates) ++
       (if any_bound w
        then EvNotifyIsInitted (notify_is_initted w)
             :: (if notify_is_initted w then []
                 else [EvNotifyInit (c_str (GetApplicationName w))
                         (notify_init w (c_str (GetApplicationName w)))])
        else [])) =
    attempts_until_bound (Load w) candidates).
  { apply loads_attempted_map.
    intros e He.
    destruct (any_bound w); [|contradiction].
    destruct (notify_is_initted w); cbn in He;
      repeat (destruct He as [<-|He]; [exact I|]); contradiction. }
  split; [reflexivity|].
  split; [exact Hloads|].
  split; [|split].
  - intros earlier name later Hsplit Hearlier Hname.
    rewrite Hloads, Hsplit.
    now apply attempts_until_bound_first.
  - destruct (any_bound w), (notify_is_initted w),
      (notify_init w (c_str (GetApplicationName w))); cbn; intuition congruence.
  - rewrite in_app_iff, in_map_iff.
    split.
    + intros [(name & Hname & _) | Hin]; [discriminate Hname|].
      destruct (any_bound w); [|contradiction].
      destruct (notify_is_initted w); [|now split].
      destruct Hin as [Hin|[]]. discriminate Hin.
    + intros [-> ->]. right. right. now left.
Qed.

(** ** Show *)

(** The operations unfolded down to the capability check, which is then
    replaced by its evaluation [HasCapability_run]. *)
Ltac unfold_above_HasCapability :=
  unfold run, Show, Dismiss, OnNotificationClosed, OnNotificationView, destructor,
    NotifierSupportsActions,
    NotificationFailed, NotificationDismissed, NotificationClicked, Destroy,
    delegate_signal, log_and_clear_error,
    notify_notification_show, notify_notification_close,
    notify_notification_set_hint_string, g_object_set_id,
    notify_notification_set_timeout, notify_notification_set_image_from_pixbuf,
    notify_notification_add_action, g_signal_connect_closed,
    g_signal_handlers_disconnect_by_data, g_object_unref_notification_,
    notify_notification_new, on_notification_, g_quark_from_string,
    when, liftP, bind, ret, emit, get, modify.

Ltac eval_checks :=
  repeat (cbn -[HasCapability]; rewrite ?HasCapability_run).

Ltac split_answers :=
  repeat match goal with
         | |- context [match ?x with _ => _ end] =>
             lazymatch x with
             | context [match _ with _ => _ end] => fail
             | _ => destruct x eqn:?; eval_checks
             end
         end.

(** C1. Every call of Show emits exactly one of the delegate signals
    displayed and failed: displayed once and failed never when
    notify_notification_show reports no error, failed once and displayed
    never when it reports one. *)
Theorem Show_displayed_xor_failed
    (w : World) (title body : list N) (tag icon_url : string)
    (icon : SkBitmap) (silent : bool)
    (o : LibnotifyNotification) (p : Process) :
  let log := emitted (run (Show w title body tag icon_url icon silent) o p) in
  delegate_signals log =
    [if is_error (show_error w) then SigFailed else SigDisplayed] /\
  (show_error w = None ->
     count_signal SigDisplayed log = 1 /\ count_signal SigFailed log = 0) /\
  (show_error w <> None ->
     count_signal SigFailed log = 1 /\ count_signal SigDisplayed log = 0).
Proof.
  cbn zeta.
  assert (H : delegate_signals
                (emitted (run (Show w title body tag icon_url icon silent) o p)) =
              [if is_error (show_error w) then SigFailed else SigDisplayed]).
  { unfold_above_HasCapability.
    destruct (getenv w ELECTRON_USE_UBUNTU_NOTIFIER);
      destruct (notify_has_result p) eqn:Hflag;
      destruct (drawsNothing icon);
      destruct (empty tag);
      eval_checks; rewrite ?Hflag; eval_checks;
      split_answers; reflexivity. }
  unfold count_signal. rewrite H.
  split; [reflexivity|].
  split.
  - intros ->. now split.
  - destruct (show_error w); [now split | contradiction].
Qed.

(** The hints Show sets, from the replies to its two append queries; [k] is
    the number of the round trip that asks for "append". *)
Lemma Show_hints
    (w : World) (title body : list N) (tag icon_url : string)
    (icon : SkBitmap) (silent : bool)
    (o : LibnotifyNotification) (p : Process) :
  let r := run (Show w title body tag icon_url icon silent) o p in
  let k := round_trips p + actions_queries w p in
  let primary := member "append" (server_caps w k) in
  let legacy := member "x-canonical-append" (server_caps w (S k)) in
  hints_set (emitted r) = append_hint primary legacy /\
  handle_hints (state r) =
    map (fun key => (key, "true")) (append_hint primary legacy).
Proof.
  cbn zeta. unfold actions_queries, append_hint, handle_hints.
  unfold_above_HasCapability.
  destruct (getenv w ELECTRON_USE_UBUNTU_NOTIFIER);
    destruct (notify_has_result p) eqn:Hflag;
    rewrite ?Nat.add_0_r, ?Nat.add_1_r;
    destruct (drawsNothing icon);
    destruct (empty tag);
    eval_checks; rewrite ?Hflag; eval_checks;
    split_answers; split; reflexivity.
Qed.

Lemma append_hint_not_both (primary legacy : bool) :
  ~ (In "append" (append_hint primary legacy) /\
     In "x-canonical-append" (append_hint primary legacy)).
Proof.
  destruct primary, legacy; cbn; intuition discriminate.
Qed.

(** C7. On every call of Show the append hints are decided by the service's
    replies alone: "append" is set when the reply to the append query
    contains it; otherwise "x-canonical-append" is set when the reply to the
    legacy query contains that; otherwise neither is set.  The two are never
    both set, the native handle carries exactly the hint that was set, with
    value "true", and another tag changes nothing.  For a service that
    advertises one set throughout the call this is the three-way choice on
    that set. *)
Theorem Show_append_hint
    (w : World) (title body : list N) (tag icon_url : string)
    (icon : SkBitmap) (silent : bool)
    (o : LibnotifyNotification) (p : Process) :
  let r := run (Show w title body tag icon_url icon silent) o p in
  let k := round_trips p + actions_queries w p in
  let primary := member "append" (server_caps w k) in
  let legacy := member "x-canonical-append" (server_caps w (S k)) in
  hints_set (emitted r) = append_hint primary legacy /\
  handle_hints (state r) =
    map (fun key => (key, "true")) (append_hint primary legacy) /\
  ~ (In "append" (hints_set (emitted r)) /\
     In "x-canonical-append" (hints_set (emitted r))) /\
  (forall tag',
     hints_set (emitted (run (Show w title body tag' icon_url icon silent) o p))
     = hints_set (emitted r)) /\
  (forall caps,
     (forall n, server_caps w n = caps) ->
     hints_set (emitted r) =
       if in_dec string_dec "append" caps then ["append"]
       else if in_dec string_dec "x-canonical-append" caps
            then ["x-canonical-append"]
            else []).
Proof.
  cbn zeta.
  destruct (Show_hints w title body tag icon_url icon silent o p)
    as [Hlog Hhandle].
  cbn zeta in Hlog, Hhandle.
  split; [exact Hlog|].
  split; [exact Hhandle|].
  split; [rewrite Hlog; apply append_hint_not_both|].
  split.
  - intros tag'.
    destruct (Show_hints w title body tag' icon_url icon silent o p) as [Hlog' _].
    cbn zeta in Hlog'. now rewrite Hlog, Hlog'.
  - intros caps Hstable. rewrite Hlog, !Hstable.
    unfold append_hint, member.
    destruct (in_dec string_dec "append" caps); [reflexivity|].
    destruct (in_dec string_dec "x-canonical-append" caps); reflexivity.
Qed.

(** ** Tags *)

Lemma quark_index_app (s : string) (table added : list string) (i : nat) :
  quark_index s table = Some i -> quark_index s (table ++ added) = Some i.
Proof.
  revert i. induction table as [|x table IH]; intros i; cbn; [discriminate|].
  destruct (String.eqb x s); [trivial|].
  destruct (quark_index s table) as [j|]; [|discriminate].
  now rewrite (IH j eq_refl).
Qed.

Lemma quark_index_nth (s : string) (table : list string) (i : nat) :
  quark_index s table = Some i -> nth_error table i = Some s.
Proof.
  revert i. induction table as [|x table IH]; intros i; cbn; [discriminate|].
  destruct (String.eqb x s) eqn:E.
  - intros [= <-]. apply String.eqb_eq in E. now subst.
  - destruct (quark_index s table) as [j|]; [|discriminate].
    intros [= <-]. now apply IH.
Qed.

Lemma quark_index_new (s : string) (table : list string) :
  quark_index s table = None ->
  quark_index s (table ++ [s]) = Some (length table).
Proof.
  induction table as [|x table IH]; cbn.
  - now rewrite String.eqb_refl.
  - destruct (String.eqb x s); [discriminate|].
    destruct (quark_index s table); [discriminate|].
    intros _. now rewrite IH.
Qed.

Lemma quark_slot_extended (s : string) (table added : list string) (i : nat) :
  quark_index s table = Some i -> quark_slot s (table ++ added) = i.
Proof.
  intros H. unfold quark_slot. now rewrite (quark_index_app _ _ added _ H).
Qed.

Lemma quark_slot_inj (s1 s2 : string) (table : list string) (i : nat) :
  quark_index s1 table = Some i -> quark_slot s2 table = i -> s1 = s2.
Proof.
  intros H1 H2. unfold quark_slot in H2.
  apply quark_index_nth in H1.
  destruct (quark_index s2 table) as [j|] eqn:E.
  - apply quark_index_nth in E. subst j. congruence.
  - assert (i < length table) by (apply nth_error_Some; congruence). lia.
Qed.

(** What Show does with the tag: the identity given to the native handle, the
    property assignments made, and where the tag sits in the quark table
    afterwards. *)
Lemma Show_tag
    (w : World) (title body : list N) (tag icon_url : string)
    (icon : SkBitmap) (silent : bool)
    (o : LibnotifyNotification) (p : Process) :
  let r := run (Show w title body tag icon_url icon silent) o p in
  if empty tag then
    handle_id (state r) = Some 0%N /\
    ids_assigned (emitted r) = [] /\
    quark_table (proc (state r)) = quark_table p
  else
    let i := quark_slot (c_str tag) (quark_table p) in
    handle_id (state r) = Some (N.of_nat (S i)) /\
    ids_assigned (emitted r) = [N.of_nat (S i)] /\
    quark_index (c_str tag) (quark_table (proc (state r))) = Some i.
Proof.
  cbn zeta. unfold quark_slot, handle_id.
  unfold_above_HasCapability.
  destruct (empty tag).
  - destruct (getenv w ELECTRON_USE_UBUNTU_NOTIFIER);
      destruct (notify_has_result p) eqn:Hflag;
      destruct (drawsNothing icon);
      eval_checks; rewrite ?Hflag; eval_checks;
      split_answers; repeat split; reflexivity.
  - destruct (quark_index (c_str tag) (quark_table p)) as [i|] eqn:Hq;
      destruct (getenv w ELECTRON_USE_UBUNTU_NOTIFIER);
      destruct (notify_has_result p) eqn:Hflag;
      destruct (drawsNothing icon);
      eval_checks; rewrite ?Hflag, ?Hq; eval_checks;
      split_answers; rewrite ?Hq;
      repeat split; try reflexivity; try assumption; try congruence;
      apply quark_index_new; assumption.
Qed.

(** C8. Take any two calls of Show in one run of the process, the second at
    any point after the first.  With both tags non-empty, each call assigns
    one identity, a non-zero quark, to its native handle, and the two
    identities are equal exactly when the tags agree as C strings, that is, up
    to their first NUL: equal tags always get the same identity, and tags
    without NUL get different identities when they differ.  With an empty tag
    no identity is assigned and nothing is interned. *)
Theorem Show_tag_identity
    (w1 w2 : World) (title1 body1 title2 body2 : list N)
    (tag1 tag2 icon_url1 icon_url2 : string)
    (icon1 icon2 : SkBitmap) (silent1 silent2 : bool)
    (o1 o2 : LibnotifyNotification) (p1 p2 : Process)
    (Hlater :
       steps (proc (state (run (Show w1 title1 body1 tag1 icon_url1 icon1 silent1)
                               o1 p1)))
             p2) :
  let r1 := run (Show w1 title1 body1 tag1 icon_url1 icon1 silent1) o1 p1 in
  let r2 := run (Show w2 title2 body2 tag2 icon_url2 icon2 silent2) o2 p2 in
  (tag1 = EmptyString ->
     handle_id (state r1) = Some 0%N /\
     ids_assigned (emitted r1) = [] /\
     quark_table (proc (state r1)) = quark_table p1) /\
  (tag1 <> EmptyString -> tag2 <> EmptyString ->
     exists q1 q2 : N,
       q1 <> 0%N /\ q2 <> 0%N /\
       handle_id (state r1) = Some q1 /\ ids_assigned (emitted r1) = [q1] /\
       handle_id (state r2) = Some q2 /\ ids_assigned (emitted r2) = [q2] /\
       (q1 = q2 <-> c_str tag1 = c_str tag2) /\
       (tag1 = tag2 -> q1 = q2) /\
       (c_str tag1 = tag1 -> c_str tag2 = tag2 -> tag1 <> tag2 -> q1 <> q2)).
Proof.
  cbn zeta.
  pose proof (Show_tag w1 title1 body1 tag1 icon_url1 icon1 silent1 o1 p1) as S1.
  pose proof (Show_tag w2 title2 body2 tag2 icon_url2 icon2 silent2 o2 p2) as S2.
  cbn zeta in S1, S2.
  split.
  - intros ->. exact S1.
  - intros Hne1 Hne2.
    destruct tag1 as [|c1 tag1]; [contradiction|].
    destruct tag2 as [|c2 tag2]; [contradiction|].
    cbn [empty] in S1, S2.
    set (t1 := String c1 tag1) in *. set (t2 := String c2 tag2) in *.
    destruct S1 as (Hid1 & Hset1 & Hslot1), S2 as (Hid2 & Hset2 & _).
    apply steps_frame in Hlater. destruct Hlater as [_ [added Htable]].
    exists (N.of_nat (S (quark_slot (c_str t1) (quark_table p1)))),
           (N.of_nat (S (quark_slot (c_str t2) (quark_table p2)))).
    repeat (split; [first [assumption | lia]|]).
    rewrite Htable.
    assert (Hiff :
      N.of_nat (S (quark_slot (c_str t1) (quark_table p1))) =
      N.of_nat (S (quark_slot (c_str t2)
                     (quark_table
                        (proc (state (run (Show w1 title1 body1 t1 icon_url1
                                             icon1 silent1) o1 p1))) ++ added)))
      <-> c_str t1 = c_str t2).
    { split.
      - intros Heq. apply N2Nat.inj_iff in Heq. rewrite !Nat2N.id in Heq.
        injection Heq as Heq.
        apply (quark_slot_inj _ _ _ _ (quark_index_app _ _ added _ Hslot1)).
        now symmetry.
      - intros <-. now rewrite (quark_slot_extended _ _ added _ Hslot1). }
    split; [exact Hiff|].
    split.
    + intros Heq. apply Hiff. now rewrite Heq.
    + intros Hc1 Hc2 Hdiff Heq. apply Hiff in Heq. congruence.
Qed.

Lemma Show_tag_identity_witness :
  steps (proc (state (run (Show notify_osd [] [] "ci-status" no_url no_icon false)
                          (Create 1) initial_process)))
        (proc (state (run (Show notify_osd [] [] "ci-status" no_url no_icon false)
                          (Create 1) initial_process))) /\
  handle_id (state (run (Show notify_osd [] [] "ci-status" no_url no_icon false)
                        (Create 1) initial_process)) <>
  handle_id (state (run (Show notify_osd [] [] "mail" no_url no_icon false)
                        (Create 2)
                        (proc (state (run (Show notify_osd [] [] "ci-status"
                                             no_url no_icon false)
                                          (Create 1) initial_process))))).
Proof.
  split; [apply steps_refl|].
  assert (N1 : "ci-status" <> EmptyString) by discriminate.
  assert (N2 : "mail" <> EmptyString) by discriminate.
  destruct (proj2 (Show_tag_identity
                     notify_osd notify_osd [] [] [] [] "ci-status" "mail"
                     no_url no_url no_icon no_icon false false
                     (Create 1) (Create 2) initial_process _ (steps_refl _))
                  N1 N2)
    as (q1 & q2 & _ & _ & H1 & _ & H2 & _ & Hiff & _).
  rewrite H1, H2. intros [= Heq]. apply Hiff in Heq. discriminate Heq.
Defined.

(** Identities are not distinct for all distinct tags: two tags that differ
    only after a NUL are non-empty and different, and both handles get the
    quark of "a". *)
Lemma Show_tag_identity_nul_counterexample :
  nul_tag_b <> EmptyString /\
  nul_tag_c <> EmptyString /\
  nul_tag_b <> nul_tag_c /\
  handle_id (state (run (Show notify_osd [] [] nul_tag_b no_url no_icon false)
                        (Create 1) initial_process)) = Some 1%N /\
  handle_id (state (run (Show notify_osd [] [] nul_tag_c no_url no_icon false)
                        (Create 2)
                        (proc (state (run (Show notify_osd [] [] nul_tag_b
                                             no_url no_icon false)
                                          (Create 1) initial_process)))))
    = Some 1%N.
Proof.
  repeat split; try discriminate; reflexivity.
Qed.

(** ** Dismiss and the closed callback *)

(** C6. Dismiss on a notification that has been shown (it holds a native
    handle): when notify_notification_close reports an error the notification
    is destroyed locally at once and no signal reaches the delegate; when it
    reports none, Dismiss signals nothing and leaves the notification as it
    was, and the closed callback that follows signals dismissed exactly once. *)
Theorem Dismiss_close_outcomes
    (w : World) (o : LibnotifyNotification) (p : Process)
    (h : NotifyNotification) (Hshown : notification_ o = Some h) :
  let r := run (Dismiss w) o p in
  (close_error w <> None ->
     lifecycle (self (state r)) = Destroyed /\
     destroys (emitted r) = 1 /\
     delegate_signals (emitted r) = [] /\
     count_signal SigDismissed (emitted r) = 0) /\
  (close_error w = None ->
     delegate_signals (emitted r) = [] /\
     destroys (emitted r) = 0 /\
     self (state r) = o /\
     delegate_signals (emitted (OnNotificationClosed (state r))) = [SigDismissed] /\
     count_signal SigDismissed (emitted (OnNotificationClosed (state r))) = 1 /\
     lifecycle (self (state (OnNotificationClosed (state r)))) = Dismissed).
Proof.
  cbn zeta. unfold run, Dismiss, notify_notification_close, bind, get.
  cbn [self]. rewrite Hshown.
  destruct (close_error w) as [e|]; cbn.
  - split; [intros _ | intros [=]]. repeat split.
  - split; [intros H; contradiction|intros _].
    destruct o as [a n l]. cbn in Hshown |- *. repeat split.
Qed.

Lemma Dismiss_close_outcomes_witness :
  notification_ shown_notification = Some (handle_of shown_notification) /\
  delegate_signals
    (emitted (OnNotificationClosed
                (state (run (Dismiss notify_osd) shown_notification
                            initial_process)))) = [SigDismissed].
Proof.
  assert (H : notification_ shown_notification
              = Some (handle_of shown_notification)) by reflexivity.
  split; [exact H|].
  pose proof (Dismiss_close_outcomes notify_osd shown_notification
                initial_process (handle_of shown_notification) H) as T.
  cbn zeta in T.
  destruct (proj2 T eq_refl) as (_ & _ & _ & Hsig & _).
  exact Hsig.
Defined.

(** ** Destruction *)

(** Show always leaves the notification with a native handle. *)
Lemma Show_creates_handle
    (w : World) (title body : list N) (tag icon_url : string)
    (icon : SkBitmap) (silent : bool)
    (o : LibnotifyNotification) (p : Process) :
  notification_
    (self (state (run (Show w title body tag icon_url icon silent) o p))) <> None.
Proof.
  unfold_above_HasCapability.
  destruct (getenv w ELECTRON_USE_UBUNTU_NOTIFIER);
    destruct (notify_has_result p) eqn:Hflag;
    destruct (drawsNothing icon);
    destruct (empty tag);
    eval_checks; rewrite ?Hflag; eval_checks;
    split_answers; discriminate.
Qed.

(** On a notification that holds a native handle the destructor disconnects
    the handlers registered with this object and drops the reference; no
    precondition check of GLib fires. *)
Lemma destructor_with_handle
    (o : LibnotifyNotification) (p : Process) (h : NotifyNotification) :
  notification_ o = Some h ->
  emitted (run destructor o p) =
    [EvGSignalHandlersDisconnectByData (this o); EvGObjectUnref] /\
  criticals (emitted (run destructor o p)) = [].
Proof.
  intros Hh.
  unfold run, destructor, g_signal_handlers_disconnect_by_data,
    g_object_unref_notification_, on_notification_, bind, get, emit, modify.
  cbn [self]. rewrite Hh. cbn. now split.
Qed.

(** C9. On a notification on which Show was never called the destructor
    still makes both calls, on the NULL handle: g_signal_handlers_disconnect
    and g_object_unref each fail their instance check and log a critical
    warning, so destruction from the non-displayed state does perform invalid
    operations on the absent handle. *)
Theorem destructor_never_shown (address : nat) (p : Process) :
  notification_ (Create address) = None /\
  emitted (run destructor (Create address) p) =
    [EvGLibCritical "g_signal_handlers_disconnect_matched";
     EvGLibCritical "g_object_unref"] /\
  criticals (emitted (run destructor (Create address) p)) <> [].
Proof.
  split; [reflexivity|].
  split; [reflexivity|].
  discriminate.
Qed.

(** * The rest of the file *)

(** ** Show, call by call *)

Lemma Show_emitted
    (w : World) (title body : list N) (tag icon_url : string)
    (icon : SkBitmap) (silent : bool)
    (o : LibnotifyNotification) (p : Process) :
  emitted (run (Show w title body tag icon_url icon silent) o p) =
  Show_events w title body tag icon o p.
Proof.
  unfold Show_events, check_events, actions_answer, actions_queries, quark_slot.
  unfold_above_HasCapability.
  destruct (getenv w ELECTRON_USE_UBUNTU_NOTIFIER);
    destruct (notify_has_result p) eqn:Hflag;
    rewrite ?Nat.add_0_r, ?Nat.add_1_r;
    destruct (drawsNothing icon);
    destruct (empty tag);
    eval_checks; rewrite ?Hflag; eval_checks;
    split_answers; reflexivity.
Qed.

(** The native object Show builds and the process state it leaves. *)
Lemma Show_built
    (w : World) (title body : list N) (tag icon_url : string)
    (icon : SkBitmap) (silent : bool)
    (o : LibnotifyNotification) (p : Process) :
  let r := run (Show w title body tag icon_url icon silent) o p in
  let k := round_trips p + actions_queries w p in
  let primary := member "append" (server_caps w k) in
  let legacy := member "x-canonical-append" (server_caps w (S k)) in
  notification_ (self (state r)) =
    Some {| nn_summary := c_str (UTF16ToUTF8 w title);
            nn_body := c_str (UTF16ToUTF8 w body);
            nn_closed_handlers := [this o];
            nn_actions :=
              if actions_answer w p then [("default", "View", this o)] else [];
            nn_image :=
              if drawsNothing icon then None
              else Some (GdkPixbufFromSkBitmap w icon);
            nn_timeout :=
              if drawsNothing icon then None else Some NOTIFY_EXPIRES_DEFAULT;
            nn_id :=
              if empty tag then 0%N
              else N.of_nat (S (quark_slot (c_str tag) (quark_table p)));
            nn_hints :=
              map (fun key => (key, "true")) (append_hint primary legacy) |} /\
  this (self (state r)) = this o /\
  round_trips (proc (state r)) = (if primary then S k else S (S k)).
Proof.
  cbn zeta.
  unfold actions_answer, actions_queries, quark_slot, append_hint.
  unfold_above_HasCapability.
  destruct (getenv w ELECTRON_USE_UBUNTU_NOTIFIER);
    destruct (notify_has_result p) eqn:Hflag;
    rewrite ?Nat.add_0_r, ?Nat.add_1_r;
    destruct (drawsNothing icon);
    destruct (empty tag);
    eval_checks; rewrite ?Hflag; eval_checks;
    split_answers; repeat split.
Qed.

Lemma actions_queries_cases (w : World) (p : Process) :
  actions_queries w p = 0 \/ actions_queries w p = 1.
Proof.
  unfold actions_queries.
  destruct (getenv w ELECTRON_USE_UBUNTU_NOTIFIER); [now left|].
  destruct (notify_has_result p); [now left | now right].
Qed.

Lemma actions_answer_reachable (w : World) (p : Process) :
  reachable p ->
  actions_answer w p =
  match getenv w ELECTRON_USE_UBUNTU_NOTIFIER with
  | Some _ => false
  | None => member "actions" (server_caps w (round_trips p))
  end.
Proof.
  intros Hp. unfold actions_answer. now rewrite (reachable_flag p Hp).
Qed.

(** X1. The "View" action.  In a reachable process state Show registers the
    action "default"/"View", bound to the notification object, exactly when
    the override is unset and the service's reply contains "actions"; no
    other action is ever registered. *)
Theorem Show_view_action
    (w : World) (title body : list N) (tag icon_url : string)
    (icon : SkBitmap) (silent : bool)
    (o : LibnotifyNotification) (p : Process) (Hp : reachable p) :
  let r := run (Show w title body tag icon_url icon silent) o p in
  actions_added (emitted r) = handle_actions (state r) /\
  handle_actions (state r) =
    match getenv w ELECTRON_USE_UBUNTU_NOTIFIER with
    | Some _ => []
    | None =>
        if member "actions" (server_caps w (round_trips p))
        then [("default", "View", this o)]
        else []
    end.
Proof.
  cbn zeta.
  destruct (Show_built w title body tag icon_url icon silent o p) as (Hh & _).
  cbn zeta in Hh. unfold handle_actions. rewrite Hh. cbn [nn_actions].
  split.
  - rewrite Show_emitted. unfold Show_events, check_events, actions_added.
    rewrite !flat_map_app.
    destruct (actions_answer w p);
      repeat match goal with
             | |- context [if ?b then _ else _] => destruct b
             | |- context [match show_error ?w with _ => _ end] =>
                 destruct (show_error w)
             end; reflexivity.
  - rewrite (actions_answer_reachable w p Hp).
    destruct (getenv w ELECTRON_USE_UBUNTU_NOTIFIER); [reflexivity|].
    destruct (member "actions" _); reflexivity.
Qed.

Lemma Show_view_action_witness :
  reachable initial_process /\
  handle_actions
    (state (run (Show notify_osd [] [] "ci-status" no_url no_icon false)
                (Create 1) initial_process)) = [("default", "View", 1)] /\
  handle_actions
    (state (run (Show notify_osd_override [] [] "ci-status" no_url no_icon false)
                (Create 1) initial_process)) = [].
Proof.
  assert (R : reachable initial_process) by apply steps_refl.
  split; [exact R|].
  split.
  - exact (proj2 (Show_view_action notify_osd [] [] "ci-status" no_url no_icon
                    false (Create 1) initial_process R)).
  - exact (proj2 (Show_view_action notify_osd_override [] [] "ci-status" no_url
                    no_icon false (Create 1) initial_process R)).
Defined.

(** X2. The image.  An icon that draws nothing leaves the notification
    without image and without timeout; any other icon is converted once, set
    as the image together with the default expiry, and the converted pixbuf
    is released exactly once. *)
Theorem Show_image
    (w : World) (title body : list N) (tag icon_url : string)
    (icon : SkBitmap) (silent : bool)
    (o : LibnotifyNotification) (p : Process) :
  let r := run (Show w title body tag icon_url icon silent) o p in
  (drawsNothing icon = true ->
     handle_image (state r) = None /\
     handle_timeout (state r) = None /\
     images_set (emitted r) = [] /\
     pixbuf_unrefs (emitted r) = 0) /\
  (drawsNothing icon = false ->
     handle_image (state r) = Some (GdkPixbufFromSkBitmap w icon) /\
     handle_timeout (state r) = Some NOTIFY_EXPIRES_DEFAULT /\
     images_set (emitted r) = [GdkPixbufFromSkBitmap w icon] /\
     pixbuf_unrefs (emitted r) = 1).
Proof.
  cbn zeta.
  destruct (Show_built w title body tag icon_url icon silent o p) as (Hh & _).
  cbn zeta in Hh. unfold handle_image, handle_timeout. rewrite Hh.
  cbn [nn_image nn_timeout].
  rewrite Show_emitted. unfold Show_events, check_events, images_set, pixbuf_unrefs.
  rewrite !flat_map_app, !filter_app, !length_app.
  split; intros ->;
    repeat match goal with
           | |- context [if ?b then _ else _] => destruct b
           | |- context [match show_error ?w with _ => _ end] =>
               destruct (show_error w)
           end; repeat split.
Qed.

(** The capability queries Show makes, counted. *)
Lemma Show_queries
    (w : World) (title body : list N) (tag icon_url : string)
    (icon : SkBitmap) (silent : bool)
    (o : LibnotifyNotification) (p : Process) :
  capability_queries
    (emitted (run (Show w title body tag icon_url icon silent) o p)) =
  actions_queries w p +
  (if member "append" (server_caps w (round_trips p + actions_queries w p))
   then 1 else 2) /\
  reply_frees (emitted (run (Show w title body tag icon_url icon silent) o p)) =
  capability_queries
    (emitted (run (Show w title body tag icon_url icon silent) o p)) /\
  round_trips
    (proc (state (run (Show w title body tag icon_url icon silent) o p))) =
  round_trips p +
  capability_queries
    (emitted (run (Show w title body tag icon_url icon silent) o p)).
Proof.
  destruct (Show_built w title body tag icon_url icon silent o p) as (_ & _ & Hr).
  cbn zeta in Hr. rewrite Hr.
  rewrite Show_emitted. unfold Show_events, check_events,
    capability_queries, reply_frees.
  rewrite !filter_app, !length_app.
  destruct (actions_queries_cases w p) as [-> | ->]; cbn [Nat.eqb];
    repeat match goal with
           | |- context [if ?b then _ else _] => destruct b
           | |- context [match show_error ?w with _ => _ end] =>
               destruct (show_error w)
           end; cbn; repeat split; lia.
Qed.

(** The delegate signals among the calls of Show. *)
Lemma Show_events_signals
    (w : World) (title body : list N) (tag : string)
    (icon : SkBitmap) (o : LibnotifyNotification) (p : Process) :
  delegate_signals (Show_events w title body tag icon o p) =
  [if is_error (show_error w) then SigFailed else SigDisplayed].
Proof.
  unfold Show_events, check_events, delegate_signals.
  rewrite !flat_map_app.
  destruct (show_error w); cbn [is_error];
  repeat match goal with
         | |- context [if ?b then _ else _] => destruct b
         | |- context [match show_error ?w with _ => _ end] =>
             destruct (show_error w)
         end; reflexivity.
Qed.

(** X3. Round trips.  Show asks the service for its capabilities once for
    "actions" (not at all under the override), once for "append", and a third
    time, for "x-canonical-append", only when the reply to the append query
    lacked "append": between one and three queries, at most two under the
    override, each one a round trip of its own. *)
Theorem Show_round_trips
    (w : World) (title body : list N) (tag icon_url : string)
    (icon : SkBitmap) (silent : bool)
    (o : LibnotifyNotification) (p : Process) :
  let r := run (Show w title body tag icon_url icon silent) o p in
  let k := round_trips p + actions_queries w p in
  let queries := capability_queries (emitted r) in
  queries =
    actions_queries w p + (if member "append" (server_caps w k) then 1 else 2) /\
  1 <= queries <= 3 /\
  (getenv w ELECTRON_USE_UBUNTU_NOTIFIER <> None -> queries <= 2) /\
  round_trips (proc (state r)) = round_trips p + queries.
Proof.
  cbn zeta.
  destruct (Show_queries w title body tag icon_url icon silent o p)
    as (Hq & _ & Hr).
  rewrite Hr, Hq.
  pose proof (actions_queries_cases w p) as Hcases.
  assert (Hover : getenv w ELECTRON_USE_UBUNTU_NOTIFIER <> None ->
                  actions_queries w p = 0).
  { unfold actions_queries.
    destruct (getenv w ELECTRON_USE_UBUNTU_NOTIFIER); [reflexivity|contradiction]. }
  destruct (member "append" _); repeat split; try lia;
    intros H; rewrite (Hover H); lia.
Qed.

(** X4. Every reply is freed.  In whatever operation of the file, each
    capability query is matched by one g_list_free_full of its reply, and the
    operation advances the service's round trips by exactly the queries it
    made. *)
Theorem replies_freed (p q : Process) (log : list event)
    (Hop : performs p log q) :
  reply_frees log = capability_queries log /\
  round_trips q = round_trips p + capability_queries log.
Proof.
  destruct Hop.
  - rewrite Initialize_run. cbn [emitted state].
    unfold reply_frees, capability_queries.
    rewrite !filter_app, !length_app.
    assert (Hloads : forall (f : event -> bool) names,
              (forall n b, f (EvLoad n b) = false) ->
              length (filter f (map (fun name => EvLoad name (Load w name))
                                    names)) = 0).
    { intros f names Hf. induction names as [|n names IH]; [reflexivity|].
      cbn. now rewrite Hf. }
    rewrite !Hloads by reflexivity.
    destruct (any_bound w), (notify_is_initted w); cbn; (split; [reflexivity|lia]).
  - rewrite HasCapability_run. cbn; (split; [reflexivity|lia]).
  - unfold NotifierSupportsActions, bind, get, ret, modify.
    destruct (getenv w ELECTRON_USE_UBUNTU_NOTIFIER);
      [cbn; (split; [reflexivity|lia])|].
    cbn -[HasCapability].
    destruct (notify_has_result p); [cbn; (split; [reflexivity|lia])|].
    rewrite HasCapability_run. cbn; (split; [reflexivity|lia]).
  - destruct (Show_queries w title body tag icon_url icon silent o p)
      as (_ & Hfrees & Hr).
    now split.
  - unfold run, Dismiss, notify_notification_close, log_and_clear_error,
      Destroy, bind, get, ret, emit, modify.
    destruct o as [address [h|] l]; [destruct (close_error w)|];
      cbn; (split; [reflexivity|lia]).
  - cbn; (split; [reflexivity|lia]).
  - cbn; (split; [reflexivity|lia]).
  - unfold run, destructor, g_signal_handlers_disconnect_by_data,
      g_object_unref_notification_, on_notification_, bind, get, emit, modify.
    destruct o as [address [h|] l]; cbn; (split; [reflexivity|lia]).
Qed.

Lemma replies_freed_witness :
  performs initial_process
    (emitted (run (Show notify_osd [] [] "ci-status" no_url no_icon false)
                  (Create 1) initial_process))
    (proc (state (run (Show notify_osd [] [] "ci-status" no_url no_icon false)
                      (Create 1) initial_process))) /\
  reply_frees
    (emitted (run (Show notify_osd [] [] "ci-status" no_url no_icon false)
                  (Create 1) initial_process)) = 3.
Proof.
  assert (H : performs initial_process
    (emitted (run (Show notify_osd [] [] "ci-status" no_url no_icon false)
                  (Create 1) initial_process))
    (proc (state (run (Show notify_osd [] [] "ci-status" no_url no_icon false)
                      (Create 1) initial_process)))) by apply performs_Show.
  split; [exact H|].
  rewrite (proj1 (replies_freed _ _ _ H)). reflexivity.
Defined.

(** X5. Reporting a failed submission.  When notify_notification_show sets
    an error, Show logs it once, under the context "notify_notification_show"
    and with the error's own domain, code and message, and frees it once;
    when no error is set nothing is logged and nothing is freed. *)
Theorem Show_error_report
    (w : World) (title body : list N) (tag icon_url : string)
    (icon : SkBitmap) (silent : bool)
    (o : LibnotifyNotification) (p : Process) :
  let r := run (Show w title body tag icon_url icon silent) o p in
  error_reports (emitted r) =
    match show_error w with
    | Some e => [("notify_notification_show", e)]
    | None => []
    end /\
  error_frees (emitted r) = length (error_reports (emitted r)).
Proof.
  cbn zeta. rewrite Show_emitted.
  unfold Show_events, check_events, error_reports, error_frees.
  rewrite !flat_map_app, !filter_app, !length_app.
  repeat match goal with
         | |- context [if ?b then _ else _] => destruct b
         | |- context [match show_error ?w with _ => _ end] =>
             destruct (show_error w)
         end; split; reflexivity.
Qed.

(** X6. Submission comes last.  Show submits the notification exactly once;
    every call that creates or configures the native handle comes before the
    submission, and the delegate hears nothing until after it. *)
Theorem Show_submits_last
    (w : World) (title body : list N) (tag icon_url : string)
    (icon : SkBitmap) (silent : bool)
    (o : LibnotifyNotification) (p : Process) :
  let log := emitted (run (Show w title body tag icon_url icon silent) o p) in
  length (filter is_submission log) = 1 /\
  log = before_submission log
        ++ EvNotifyNotificationShow (is_error (show_error w))
        :: after_submission log /\
  delegate_signals (before_submission log) = [] /\
  filter configures (after_submission log) = [] /\
  delegate_signals (after_submission log) = delegate_signals log.
Proof.
  cbn zeta. rewrite Show_emitted. unfold Show_events, check_events.
  repeat match goal with
         | |- context [if ?b then _ else _] => destruct b
         | |- context [match show_error ?w with _ => _ end] =>
             destruct (show_error w)
         end; cbn; repeat split.
Qed.

(** X7. Show starts afresh.  Whatever the notification held before, Show
    builds a new native handle: the calls it makes and the handle it leaves
    are the same as on a notification that was never shown.  It makes no call
    on a NULL handle, and it neither unreferences nor disconnects the handle
    the notification held, which is simply replaced. *)
Theorem Show_replaces_handle
    (w : World) (title body : list N) (tag icon_url : string)
    (icon : SkBitmap) (silent : bool)
    (o : LibnotifyNotification) (p : Process) :
  let r := run (Show w title body tag icon_url icon silent) o p in
  let r0 := run (Show w title body tag icon_url icon silent) (Create (this o)) p in
  emitted r = emitted r0 /\
  notification_ (self (state r)) = notification_ (self (state r0)) /\
  notification_ (self (state r)) <> None /\
  handle_closed_handlers (state r) = [this o] /\
  releases (emitted r) = 0 /\
  criticals (emitted r) = [].
Proof.
  cbn zeta.
  destruct (Show_built w title body tag icon_url icon silent o p) as (Hh & _).
  destruct (Show_built w title body tag icon_url icon silent (Create (this o)) p)
    as (Hh0 & _).
  cbn zeta in Hh, Hh0. cbn [this Create] in Hh0.
  unfold handle_closed_handlers.
  rewrite Hh, Hh0, !Show_emitted.
  split; [reflexivity|].
  split; [reflexivity|].
  split; [discriminate|].
  split; [reflexivity|].
  unfold Show_events, check_events, releases, criticals.
  rewrite !filter_app, !length_app, !flat_map_app.
  repeat match goal with
         | |- context [if ?b then _ else _] => destruct b
         | |- context [match show_error ?w with _ => _ end] =>
             destruct (show_error w)
         end; split; reflexivity.
Qed.

(** X8. Show, then destruction.  Destroying a notification after any Show
    disconnects the closed handler that Show connected for this object and
    drops the handle's reference, in that order and with no GLib precondition
    failure; the handle is left without a handler for this object and the
    process state is untouched. *)
Theorem Show_then_destructor
    (w : World) (title body : list N) (tag icon_url : string)
    (icon : SkBitmap) (silent : bool)
    (o : LibnotifyNotification) (p : Process) :
  let r := run (Show w title body tag icon_url icon silent) o p in
  let d := run destructor (self (state r)) (proc (state r)) in
  In (this o) (handle_closed_handlers (state r)) /\
  emitted d = [EvGSignalHandlersDisconnectByData (this o); EvGObjectUnref] /\
  criticals (emitted d) = [] /\
  ~ In (this o) (handle_closed_handlers (state d)) /\
  proc (state d) = proc (state r).
Proof.
  cbn zeta.
  destruct (Show_built w title body tag icon_url icon silent o p)
    as (Hh & Hthis & _).
  cbn zeta in Hh.
  destruct (state (run (Show w title body tag icon_url icon silent) o p))
    as [[address handle l] q].
  cbn [self proc this notification_] in *. subst address handle.
  unfold handle_closed_handlers, run, destructor,
    g_signal_handlers_disconnect_by_data, g_object_unref_notification_,
    on_notification_, bind, get, emit, modify.
  cbn. rewrite Nat.eqb_refl. cbn.
  repeat split; auto.
Qed.

(** ** Dismiss *)

(** X9. Dismiss on a shown notification makes exactly one close call.
    Without an error that is all it does: nothing is logged, and the
    notification and the process state are as before.  With an error it
    logs the error once, under the context "notify_notification_close",
    frees it once, and then hands over to Destroy on the notification as it
    was: what follows the free is what Destroy does, no more. *)
Theorem Dismiss_shown
    (w : World) (o : LibnotifyNotification) (p : Process)
    (h : NotifyNotification) (Hshown : notification_ o = Some h) :
  let r := run (Dismiss w) o p in
  (close_error w = None ->
     emitted r = [EvNotifyNotificationClose false] /\
     self (state r) = o /\
     proc (state r) = p) /\
  (forall e, close_error w = Some e ->
     emitted r =
       [EvNotifyNotificationClose true;
        EvLogError "notify_notification_close" e;
        EvGErrorFree]
       ++ emitted (run Destroy o p) /\
     state r = state (run Destroy o p)).
Proof.
  cbn zeta. destruct o as [address handle l]. cbn in Hshown. subst handle.
  unfold run, Dismiss, notify_notification_close, log_and_clear_error,
    bind, get, ret, emit.
  cbn [self notification_].
  split.
  - intros ->. cbn. repeat split.
  - intros e ->. cbn [is_error value state emitted app].
    destruct (Destroy _) as [u c log]. cbn. now split.
Qed.

Lemma Dismiss_shown_witness :
  notification_ shown_notification = Some (handle_of shown_notification) /\
  error_reports
    (emitted (run (Dismiss failing_service) shown_notification initial_process))
  = ("notify_notification_close", mkGError 7 3 "gone")
    :: error_reports (emitted (run Destroy shown_notification initial_process)).
Proof.
  assert (H : notification_ shown_notification
              = Some (handle_of shown_notification)) by reflexivity.
  split; [exact H|].
  pose proof (Dismiss_shown failing_service shown_notification initial_process
                (handle_of shown_notification) H) as T.
  cbn zeta in T.
  destruct (proj2 T (mkGError 7 3 "gone") eq_refl) as (Hlog & _).
  rewrite Hlog. reflexivity.
Defined.

(** X10. Dismiss before Show.  On a notification that holds no native handle
    the close is refused by libnotify's own instance check, which leaves the
    error unset: whatever the service would have answered, Dismiss logs
    nothing, destroys nothing, signals nothing and leaves the notification
    and the process state as they were. *)
Theorem Dismiss_never_shown
    (w : World) (o : LibnotifyNotification) (p : Process)
    (Hnever : notification_ o = None) :
  let r := run (Dismiss w) o p in
  emitted r = [EvGLibCritical "notify_notification_close"] /\
  close_calls (emitted r) = 0 /\
  error_reports (emitted r) = [] /\
  destroys (emitted r) = 0 /\
  delegate_signals (emitted r) = [] /\
  self (state r) = o /\
  proc (state r) = p.
Proof.
  cbn zeta. destruct o as [address handle l]. cbn in Hnever. subst handle.
  unfold run, Dismiss, notify_notification_close, bind, get, ret, emit.
  cbn. repeat split.
Qed.

Lemma Dismiss_never_shown_witness :
  notification_ (Create 1) = None /\
  emitted (run (Dismiss failing_service) (Create 1) initial_process) =
    [EvGLibCritical "notify_notification_close"].
Proof.
  split; [reflexivity|].
  exact (proj1 (Dismiss_never_shown failing_service (Create 1) initial_process
                  eq_refl)).
Defined.

(** ** Initialize *)

Lemma library_calls_loads (w : World) (names : list string) (rest : list event) :
  library_calls (map (fun name => EvLoad name (Load w name)) names ++ rest) =
  library_calls rest.
Proof.
  unfold library_calls. rewrite filter_app.
  induction names as [|n names IH]; [reflexivity|]. exact IH.
Qed.

Lemma attempts_all_fail (binds : string -> bool) (names : list string) :
  (forall n, In n names -> binds n = false) ->
  attempts_until_bound binds names = names.
Proof.
  induction names as [|n names IH]; intros H; [reflexivity|].
  cbn. rewrite (H n (or_introl eq_refl)).
  f_equal. apply IH. intros m Hm. apply H. now right.
Qed.

(** X11. Initialize calls into the library only after a bind.  When no
    candidate binds, the three failed Load attempts are all it does: neither
    notify_is_initted nor notify_init is called.  When a candidate binds and
    the service reports itself initialised, the result is true and
    notify_init is not called; when it reports itself not initialised the
    result is that of notify_init on the application name. *)
Theorem Initialize_library_calls (w : World) (p : Process) :
  ((forall name, In name candidates -> Load w name = false) ->
     emitted (Initialize w p) = map (fun name => EvLoad name false) candidates /\
     library_calls (emitted (Initialize w p)) = []) /\
  ((exists name, In name candidates /\ Load w name = true) ->
     notify_is_initted w = true ->
     value (Initialize w p) = true /\
     library_calls (emitted (Initialize w p)) = [EvNotifyIsInitted true]) /\
  ((exists name, In name candidates /\ Load w name = true) ->
     notify_is_initted w = false ->
     value (Initialize w p) = notify_init w (c_str (GetApplicationName w)) /\
     library_calls (emitted (Initialize w p)) =
       [EvNotifyIsInitted false;
        EvNotifyInit (c_str (GetApplicationName w))
          (notify_init w (c_str (GetApplicationName w)))]).
Proof.
  rewrite Initialize_run. cbn [value state emitted].
  rewrite library_calls_loads.
  split; [|split].
  - intros Hnone.
    rewrite (proj2 (any_bound_false w) Hnone), (attempts_all_fail _ _ Hnone).
    split; [|reflexivity].
    rewrite app_nil_r. apply map_ext_in.
    intros name Hin. now rewrite (Hnone name Hin).
  - intros Hsome Hinit.
    rewrite (proj2 (any_bound_true w) Hsome), Hinit. now split.
  - intros Hsome Hinit.
    rewrite (proj2 (any_bound_true w) Hsome), Hinit. now split.
Qed.

(** ** The quark table over a run *)




(** ** The override seen from Show *)

(** X13. The override only takes the action away.  Against a service that
    advertises the same set throughout, and in a reachable process state,
    setting the override variable (to any value, the empty one included)
    changes the notification Show builds in one respect only: no action is
    registered.  Title, body, closed handler, image, timeout, identity and
    hints are the same, and so is the signal the delegate receives. *)
Theorem Show_override_drops_action_only
    (w : World) (v : string) (title body : list N) (tag icon_url : string)
    (icon : SkBitmap) (silent : bool)
    (o : LibnotifyNotification) (p : Process)
    (Hp : reachable p)
    (Hstable : forall n m, server_caps w n = server_caps w m) :
  let r := run (Show w title body tag icon_url icon silent) o p in
  let r' := run (Show (with_override v w) title body tag icon_url icon silent)
                o p in
  notification_ (self (state r')) =
    option_map without_actions (notification_ (self (state r))) /\
  handle_actions (state r') = [] /\
  actions_added (emitted r') = [] /\
  delegate_signals (emitted r') = delegate_signals (emitted r).
Proof.
  cbn zeta.
  destruct (Show_built w title body tag icon_url icon silent o p) as (Hh & _).
  destruct (Show_built (with_override v w) title body tag icon_url icon silent
              o p) as (Hh' & _).
  cbn zeta in Hh, Hh'.
  assert (Hset : getenv (with_override v w) ELECTRON_USE_UBUNTU_NOTIFIER = Some v)
    by reflexivity.
  assert (Hanswer : actions_answer (with_override v w) p = false)
    by (unfold actions_answer; now rewrite Hset).
  rewrite Hanswer in Hh'.
  split; [|split; [|split]].
  - rewrite Hh, Hh'. cbn [option_map without_actions nn_summary nn_body
      nn_closed_handlers nn_image nn_timeout nn_id nn_hints].
    cbn [with_override UTF16ToUTF8 GdkPixbufFromSkBitmap server_caps].
    rewrite (Hstable (round_trips p + actions_queries (with_override v w) p)
               (round_trips p + actions_queries w p)).
    rewrite (Hstable (S (round_trips p + actions_queries (with_override v w) p))
               (S (round_trips p + actions_queries w p))).
    reflexivity.
  - unfold handle_actions. now rewrite Hh'.
  - rewrite Show_emitted. unfold Show_events, check_events, actions_added.
    rewrite Hanswer, !flat_map_app.
    repeat match goal with
           | |- context [if ?b then _ else _] => destruct b
           | |- context [match show_error ?w with _ => _ end] =>
               destruct (show_error w)
           end; reflexivity.
  - now rewrite !Show_emitted, !Show_events_signals.
Qed.

Lemma Show_override_drops_action_only_witness :
  reachable initial_process /\
  (forall n m, server_caps notify_osd n = server_caps notify_osd m) /\
  handle_actions
    (state (run (Show notify_osd [] [] "ci-status" no_url no_icon false)
                (Create 1) initial_process)) <> [] /\
  handle_actions
    (state (run (Show (with_override EmptyString notify_osd) [] [] "ci-status"
                   no_url no_icon false) (Create 1) initial_process)) = [].
Proof.
  assert (R : reachable initial_process) by apply steps_refl.
  assert (S : forall n m, server_caps notify_osd n = server_caps notify_osd m)
    by reflexivity.
  split; [exact R|]. split; [exact S|]. split; [discriminate|].
  exact (proj1 (proj2 (Show_override_drops_action_only notify_osd EmptyString
                         [] [] "ci-status" no_url no_icon false (Create 1)
                         initial_process R S))).
Defined.
